(** * The RTC audio streamer: a shallow embedding of
      [livekit/src/tests/test-rtc-input.py]

    The script connects to a LiveKit room once, publishes one audio track and
    then, on every line typed at the prompt, decodes a file with an external
    [ffmpeg] process and pushes the PCM output into the published audio source
    in frames of 20 ms.

    The embedding follows the script method by method.  The Python object
    [AudioStreamer] becomes a record, the surrounding operating system
    (process table, log, calls into the LiveKit SDK) becomes a [World], and
    every method is a function in a small state-and-exception monad over
    [World].  Everything the script cannot control (what the decoder writes,
    whether the room accepts the connection, what the operator types) is an
    explicit environment argument. *)

From Stdlib Require Import String Ascii List ZArith NArith Arith Bool Lia.
From Stdlib.Strings Require Import Byte.
From Equations Require Import Equations.
Import ListNotations.

(* ===================================================================== *)
(** ** Bytes and 16-bit samples (the [numpy] calls of [play_file])        *)
(* ===================================================================== *)

Definition bytes := list byte.

Definition byte_val (b : byte) : Z := Z.of_N (Byte.to_N b).

Definition byte_of_Z (z : Z) : byte :=
  match Byte.of_N (Z.to_N (z mod 256)) with
  | Some b => b
  | None => x00
  end.

(** One little-endian [int16]: the two's complement reading of [lo + 256*hi]. *)
Definition int16_of_bytes (lo hi : byte) : Z :=
  let u := (byte_val lo + 256 * byte_val hi)%Z in
  if (u <? 32768)%Z then u else (u - 65536)%Z.

Definition bytes_of_int16 (v : Z) : bytes :=
  let u := (v mod 65536)%Z in
  [byte_of_Z u; byte_of_Z (u / 256)].

(** [np.frombuffer(data, dtype=np.int16)]: the buffer is read as 2-byte
    items; a buffer whose size is not a multiple of the item size is refused
    ([None] stands for the [ValueError] numpy raises). *)
Fixpoint frombuffer (data : bytes) : option (list Z) :=
  match data with
  | [] => Some []
  | [_] => None
  | lo :: hi :: rest =>
      match frombuffer rest with
      | Some xs => Some (int16_of_bytes lo hi :: xs)
      | None => None
      end
  end.

(** [np.pad(a, (0, n))]: constant mode, [n] zeros appended. *)
Definition np_pad (a : list Z) (after : nat) : list Z := a ++ repeat 0%Z after.

(** [a.tobytes()]. *)
Definition tobytes (a : list Z) : bytes := flat_map bytes_of_int16 a.

(* ===================================================================== *)
(** ** Audio frames and the constants of [play_file]                      *)
(* ===================================================================== *)

Record AudioFrame : Type := mkAudioFrame
  { frame_data : bytes;
    sample_rate : Z;
    num_channels : Z;
    samples_per_channel : nat }.

Definition frame_size : nat := 480.               (* 20ms at 24kHz *)
Definition bytes_per_frame : nat := frame_size * 2. (* 16-bit = 2 bytes per sample *)

(* ===================================================================== *)
(** ** Exceptions and results                                             *)
(* ===================================================================== *)

Inductive exn : Type :=
| NotConnected          (* RuntimeError("Not connected. Call connect() first.") *)
| MissingCredentials    (* ValueError("Missing LiveKit credentials in environment") *)
| InputFileNotFound     (* ValueError("Input file not found: ...") *)
| EmptyRoomName         (* ValueError("Room name cannot be empty") *)
| BufferSizeError       (* ValueError of np.frombuffer: size not a multiple of the item size *)
| ConnectFailed         (* room.connect raised *)
| PublishFailed         (* local_participant.publish_track raised *)
| SpawnFailed           (* subprocess.Popen raised (no ffmpeg executable) *)
| ReadFailed            (* process.stdout.read raised *)
| SinkRejected          (* audio_source.capture_frame raised *)
| Cancelled             (* asyncio.CancelledError delivered at an await *)
| EndOfInput.           (* EOFError of input(): standard input is exhausted *)

Inductive result (A : Type) : Type :=
| Ok (a : A)
| Raise (e : exn).
Arguments Ok {A} a.
Arguments Raise {A} e.

Definition is_ok {A} (r : result A) : bool :=
  match r with Ok _ => true | Raise _ => false end.

(* ===================================================================== *)
(** ** The decoder's standard output as seen through [read]               *)
(* ===================================================================== *)

(** How the byte stream of the decoder ends: by end of file (the process
    closed its output) or by an error of the read call. *)
Inductive StreamEnd : Type := EndOfFile | ReadFailure.

(** [process.stdout]: the bytes the decoder still has to deliver and how the
    stream ends after them. *)
Record Pipe : Type := mkPipe
  { buffered : bytes;
    at_end : StreamEnd }.

(** [process.stdout.read(n)] on the buffered reader of a blocking pipe: the
    call returns exactly [n] bytes while that many are still to come; at the
    end of the stream it returns what is left (possibly nothing), and every
    later call returns the empty bytes object.  A stream that ends in an
    error raises once fewer than [n] bytes are left. *)
Definition pipe_read (n : nat) (p : Pipe) : result bytes * Pipe :=
  if n <=? length (buffered p) then
    (Ok (firstn n (buffered p)), mkPipe (skipn n (buffered p)) (at_end p))
  else
    match at_end p with
    | EndOfFile => (Ok (buffered p), mkPipe [] EndOfFile)
    | ReadFailure => (Raise ReadFailed, p)
    end.

(* ===================================================================== *)
(** ** The streamer object and the world around it                        *)
(* ===================================================================== *)

(** A local audio track is identified by its creation rank. *)
Definition Track : Type := nat.

Inductive Level : Type := Info | Warning.

Inductive Msg : Type :=
| AlreadyConnected
| ConnectingToRoom (room : string)
| ConnectedToRoom
| PublishedTrack (t : Track)
| Playing (file_path : string)
| AudioDuration (ms : Z)
| NoDuration
| FinishedPlaying
| DisconnectedFromRoom.

(** What the script does to the outside, in the order it does it. *)
Inductive Event : Type :=
| Log (l : Level) (m : Msg)       (* logger.info / logger.warning *)
| RoomConnect (url room : string) (* self.room.connect(url, token) *)
| CreateTrack (t : Track)         (* rtc.LocalAudioTrack.create_audio_track *)
| PublishTrack (t : Track)        (* local_participant.publish_track *)
| RoomDisconnect                  (* self.room.disconnect() *)
| Probe (file_path : string)      (* subprocess.run(ffprobe ...) *)
| Spawn (pid : nat) (file_path : string) (* subprocess.Popen(ffmpeg ...) *)
| Terminate (pid : nat)           (* process.terminate() *)
| Wait (pid : nat)                (* process.wait() *)
| Prompt.                         (* input("Press Enter to play audio...") *)

Inductive ProcState : Type :=
| Running
| Exited (code : Z)    (* has exited, not yet waited for *)
| Reaped (code : Z).   (* waited for: gone from the process table *)

Definition proc_running (p : ProcState) : bool :=
  match p with Running => true | _ => false end.

(** [AudioStreamer]: the fields of [__init__].  [room_connected] is the
    state of [self.room]; [audio_source] is the queue of frames that
    [self.audio_source] has accepted, oldest first. *)
Record AudioStreamer : Type := mkAudioStreamer
  { room_name : string;
    room_connected : bool;
    audio_source : list AudioFrame;
    is_connected : bool;
    is_publishing : bool;
    current_track : option Track }.

Definition AudioStreamer_init (name : string) : AudioStreamer :=
  {| room_name := name;
     room_connected := false;
     audio_source := [];
     is_connected := false;
     is_publishing := false;
     current_track := None |}.

Record World : Type := mkWorld
  { self : AudioStreamer;
    procs : list ProcState;   (* process table, indexed by pid *)
    trace : list Event }.     (* oldest event first *)

Definition new_world (name : string) : World :=
  {| self := AudioStreamer_init name; procs := []; trace := [] |}.

(* ===================================================================== *)
(** ** The monad of the methods: state [World], exceptions [exn]          *)
(* ===================================================================== *)

Definition M (A : Type) : Type := World -> result A * World.

Definition ret {A} (a : A) : M A := fun w => (Ok a, w).
Definition raise {A} (e : exn) : M A := fun w => (Raise e, w).
Definition bind {A B} (m : M A) (k : A -> M B) : M B :=
  fun w =>
    match m w with
    | (Ok a, w') => k a w'
    | (Raise e, w') => (Raise e, w')
    end.

(** [try: body finally: fin]: the finaliser runs on every exit of [body]; the
    outcome is the one of [body] unless the finaliser itself raises. *)
Definition try_finally {A} (body : M A) (fin : M unit) : M A :=
  fun w =>
    let (r, w1) := body w in
    match fin w1 with
    | (Ok _, w2) => (r, w2)
    | (Raise e, w2) => (Raise e, w2)
    end.

Declare Scope py_scope.
Delimit Scope py_scope with py.
Notation "x <- m ;; k" := (bind m (fun x => k))
  (at level 61, m at next level, right associativity) : py_scope.
Notation "m ;; k" := (bind m (fun _ => k))
  (at level 61, right associativity) : py_scope.
Open Scope py_scope.

Definition get_self : M AudioStreamer := fun w => (Ok (self w), w).
Definition put_self (s : AudioStreamer) : M unit :=
  fun w => (Ok tt, mkWorld s (procs w) (trace w)).
Definition emit (ev : Event) : M unit :=
  fun w => (Ok tt, mkWorld (self w) (procs w) (trace w ++ [ev])).
Definition log (l : Level) (m : Msg) : M unit := emit (Log l m).

Definition set_is_connected (b : bool) (s : AudioStreamer) : AudioStreamer :=
  mkAudioStreamer (room_name s) (room_connected s) (audio_source s) b
                  (is_publishing s) (current_track s).
Definition set_is_publishing (b : bool) (s : AudioStreamer) : AudioStreamer :=
  mkAudioStreamer (room_name s) (room_connected s) (audio_source s)
                  (is_connected s) b (current_track s).
Definition set_current_track (t : option Track) (s : AudioStreamer) : AudioStreamer :=
  mkAudioStreamer (room_name s) (room_connected s) (audio_source s)
                  (is_connected s) (is_publishing s) t.
Definition set_room_connected (b : bool) (s : AudioStreamer) : AudioStreamer :=
  mkAudioStreamer (room_name s) b (audio_source s)
                  (is_connected s) (is_publishing s) (current_track s).
Definition push_source (f : AudioFrame) (s : AudioStreamer) : AudioStreamer :=
  mkAudioStreamer (room_name s) (room_connected s) (audio_source s ++ [f])
                  (is_connected s) (is_publishing s) (current_track s).

Definition modify_self (f : AudioStreamer -> AudioStreamer) : M unit :=
  fun w => (Ok tt, mkWorld (f (self w)) (procs w) (trace w)).

(** Counting events of one kind in a trace. *)
Definition count (p : Event -> bool) (t : list Event) : nat :=
  List.length (filter p t).

Definition is_create_track (ev : Event) : bool :=
  match ev with CreateTrack _ => true | _ => false end.
Definition is_publish_track (ev : Event) : bool :=
  match ev with PublishTrack _ => true | _ => false end.
Definition is_room_connect (ev : Event) : bool :=
  match ev with RoomConnect _ _ => true | _ => false end.
Definition is_room_disconnect (ev : Event) : bool :=
  match ev with RoomDisconnect => true | _ => false end.
Definition is_spawn (ev : Event) : bool :=
  match ev with Spawn _ _ => true | _ => false end.
Definition is_prompt (ev : Event) : bool :=
  match ev with Prompt => true | _ => false end.
Definition is_playing (ev : Event) : bool :=
  match ev with Log Info (Playing _) => true | _ => false end.

(* ===================================================================== *)
(** ** [AudioStreamer.connect]                                            *)
(* ===================================================================== *)

(** What [connect] finds outside: the three environment variables, and
    whether the room accepts the connection and the publication. *)
Record ConnEnv : Type := mkConnEnv
  { LIVEKIT_URL : option string;
    LIVEKIT_API_KEY : option string;
    LIVEKIT_API_SECRET : option string;
    room_accepts : bool;
    publish_accepts : bool }.

(** Truth value of [os.environ.get(...)]: set and not the empty string. *)
Definition truthy (v : option string) : bool :=
  match v with
  | Some s => negb (s =? "")%string
  | None => false
  end.

Definition env_value (v : option string) : string :=
  match v with Some s => s | None => EmptyString end.

Definition room_connect (e : ConnEnv) (url : string) : M unit :=
  s <- get_self ;;
  emit (RoomConnect url (room_name s)) ;;
  if room_accepts e then modify_self (set_room_connected true)
  else raise ConnectFailed.

Definition create_audio_track : M Track :=
  fun w =>
    let t := count is_create_track (trace w) in
    (Ok t, mkWorld (self w) (procs w) (trace w ++ [CreateTrack t])).

Definition publish_track (e : ConnEnv) (t : Track) : M unit :=
  emit (PublishTrack t) ;;
  if publish_accepts e then ret tt else raise PublishFailed.

(** The access token is computed from the key, the secret, a fresh uuid and
    the room name without touching the streamer; what the room sees of it is
    the connection attempt [RoomConnect]. *)
Definition connect (e : ConnEnv) : M unit :=
  s <- get_self ;;
  if is_connected s then
    log Info AlreadyConnected
  else
    let livekit_url := LIVEKIT_URL e in
    let livekit_api_key := LIVEKIT_API_KEY e in
    let livekit_api_secret := LIVEKIT_API_SECRET e in
    if negb (forallb truthy [livekit_url; livekit_api_key; livekit_api_secret])
    then raise MissingCredentials
    else
      log Info (ConnectingToRoom (room_name s)) ;;
      room_connect e (env_value livekit_url) ;;
      modify_self (set_is_connected true) ;;
      log Info ConnectedToRoom ;;
      track <- create_audio_track ;;
      modify_self (set_current_track (Some track)) ;;
      publish_track e track ;;
      modify_self (set_is_publishing true) ;;
      log Info (PublishedTrack track).

(* ===================================================================== *)
(** ** [AudioStreamer.play_file]                                          *)
(* ===================================================================== *)

Inductive SinkReply : Type :=
| Accept     (* capture_frame returns *)
| Reject     (* capture_frame raises *)
| Cancel.    (* the task is cancelled while it awaits capture_frame *)

(** What one call of [play_file] finds outside. *)
Record PlayEnv : Type := mkPlayEnv
  { probe_result : option Z;     (* duration found by ffprobe, in ms; None when the probe fails *)
    ffmpeg_starts : bool;        (* Popen finds the executable *)
    dec_stdout : bytes;          (* everything the decoder writes *)
    dec_stdout_end : StreamEnd;  (* how its output ends *)
    dec_exit : Z;                (* exit status of the decoder when left alone *)
    dec_exited_early : bool;     (* it has exited before terminate() is called *)
    sink : nat -> SinkReply }.   (* reply of the audio source to the k-th frame of this call *)

Definition probe_duration (e : PlayEnv) (file_path : string) : M unit :=
  emit (Probe file_path) ;;
  match probe_result e with
  | Some duration => log Info (AudioDuration duration)
  | None => log Warning NoDuration
  end.

(** [subprocess.Popen(ffmpeg_cmd, stdout=PIPE, ...)]: a new entry of the
    process table; the handle is its index. *)
Definition popen (e : PlayEnv) (file_path : string) : M nat :=
  fun w =>
    if ffmpeg_starts e then
      let pid := length (procs w) in
      (Ok pid, mkWorld (self w) (procs w ++ [Running]) (trace w ++ [Spawn pid file_path]))
    else (Raise SpawnFailed, w).

Definition process_stdout (e : PlayEnv) : Pipe :=
  mkPipe (dec_stdout e) (dec_stdout_end e).

Fixpoint update_proc (pid : nat) (f : ProcState -> ProcState)
         (ps : list ProcState) : list ProcState :=
  match ps, pid with
  | [], _ => []
  | p :: ps', O => f p :: ps'
  | p :: ps', S n => p :: update_proc n f ps'
  end.

Definition SIGTERM_status : Z := (-15)%Z.

(** [process.terminate()]: SIGTERM to a process that still runs, nothing to
    one that has exited. *)
Definition terminated (e : PlayEnv) (p : ProcState) : ProcState :=
  match p with
  | Running => Exited (if dec_exited_early e then dec_exit e else SIGTERM_status)
  | _ => p
  end.

(** [process.wait()]: blocks until the process has exited and collects it. *)
Definition waited (e : PlayEnv) (p : ProcState) : ProcState :=
  match p with
  | Running => Reaped (dec_exit e)
  | Exited c => Reaped c
  | Reaped c => Reaped c
  end.

Definition process_terminate (e : PlayEnv) (pid : nat) : M unit :=
  fun w => (Ok tt, mkWorld (self w) (update_proc pid (terminated e) (procs w))
                           (trace w ++ [Terminate pid])).

Definition process_wait (e : PlayEnv) (pid : nat) : M unit :=
  fun w => (Ok tt, mkWorld (self w) (update_proc pid (waited e) (procs w))
                           (trace w ++ [Wait pid])).

(** [await self.audio_source.capture_frame(frame)]. *)
Definition capture_frame (e : PlayEnv) (k : nat) (frame : AudioFrame) : M unit :=
  match sink e k with
  | Accept => modify_self (push_source frame)
  | Reject => raise SinkRejected
  | Cancel => raise Cancelled
  end.

(** The body of the loop between the read and the capture: bytes to samples,
    padding of a short array, samples back to bytes inside an [AudioFrame].
    The frame is declared with [frame_size] samples on one channel; its data
    is never shorter than that (lemma [make_frame_length]). *)
Definition make_frame (data : bytes) : M AudioFrame :=
  match frombuffer data with
  | None => raise BufferSizeError
  | Some audio_data =>
      let audio_data :=
        if length audio_data <? frame_size
        then np_pad audio_data (frame_size - length audio_data)
        else audio_data in
      ret (mkAudioFrame (tobytes audio_data) 24000 1 frame_size)
  end.

Definition loop_body (e : PlayEnv) (k : nat) (data : bytes) : M unit :=
  frame <- make_frame data ;;
  capture_frame e k frame.

(** A value together with the equation that says where it comes from. *)
Definition inspect {A : Type} (x : A) : { y : A | x = y } := exist _ x eq_refl.

(** [while True: data = read(bytes_per_frame); if not data: break; ...].
    [k] is the number of frames this call has pushed so far.  Every turn that
    does not leave the loop consumes at least one byte of the stream, which is
    why the loop ends. *)
Equations frame_loop (e : PlayEnv) (k : nat) (p : Pipe) (w : World)
  : result unit * World by wf (length (buffered p)) lt :=
  frame_loop e k p w with inspect (pipe_read bytes_per_frame p) := {
    | exist _ (Raise err, _) _ => (Raise err, w);
    | exist _ (Ok [], _) _ => (Ok tt, w);
    | exist _ (Ok (b :: data), p') Hread with loop_body e k (b :: data) w := {
        | (Ok _, w') => frame_loop e (S k) p' w';
        | (Raise err, w') => (Raise err, w') } }.
Next Obligation.
  revert Hread. unfold pipe_read.
  destruct (bytes_per_frame <=? length (buffered p)) eqn:Hfull.
  - apply Nat.leb_le in Hfull. intros H.
    pose proof (f_equal snd H) as Hp. cbn [snd] in Hp. subst p'.
    cbn [buffered]. rewrite length_skipn.
    unfold bytes_per_frame, frame_size in *. lia.
  - destruct (at_end p); intros H; [ | discriminate H ].
    pose proof (f_equal snd H) as Hp. cbn [snd] in Hp. subst p'.
    pose proof (f_equal fst H) as Hd. cbn [fst] in Hd.
    assert (Hb : buffered p = b :: data) by congruence.
    cbn [buffered]. rewrite Hb. cbn [length]. lia.
Qed.

Definition play_file (e : PlayEnv) (file_path : string) : M unit :=
  s <- get_self ;;
  if negb (is_connected s) then raise NotConnected
  else
    log Info (Playing file_path) ;;
    probe_duration e file_path ;;
    process <- popen e file_path ;;
    try_finally
      (frame_loop e 0 (process_stdout e))
      (process_terminate e process ;;
       process_wait e process ;;
       log Info FinishedPlaying).

(* ===================================================================== *)
(** ** [AudioStreamer.disconnect]                                         *)
(* ===================================================================== *)

Definition room_disconnect : M unit :=
  emit RoomDisconnect ;;
  modify_self (set_room_connected false).

Definition disconnect : M unit :=
  s <- get_self ;;
  if is_connected s then
    room_disconnect ;;
    modify_self (set_is_connected false) ;;
    log Info DisconnectedFromRoom
  else ret tt.

(* ===================================================================== *)
(** ** [str.strip] and [str.lower]                                        *)
(* ===================================================================== *)

(** A line of input is a string of code points below 256.  On these,
    [str.isspace] holds of TAB..CR, FS..US, SPACE, NEL and NBSP, and
    [str.lower] shifts A..Z and the capital letters of Latin-1. *)
Definition isspace (c : ascii) : bool :=
  let n := N_of_ascii c in
  ((9 <=? n) && (n <=? 13) || (28 <=? n) && (n <=? 32) || (n =? 133) || (n =? 160))%N.

Definition lower_char (c : ascii) : ascii :=
  let n := N_of_ascii c in
  if ((65 <=? n) && (n <=? 90) || (192 <=? n) && (n <=? 222) && negb (n =? 215))%N
  then ascii_of_N (n + 32)
  else c.

Fixpoint lower (s : string) : string :=
  match s with
  | EmptyString => EmptyString
  | String c r => String (lower_char c) (lower r)
  end.

Fixpoint lstrip (s : string) : string :=
  match s with
  | EmptyString => EmptyString
  | String c r => if isspace c then lstrip r else s
  end.

Fixpoint rstrip (s : string) : string :=
  match s with
  | EmptyString => EmptyString
  | String c r =>
      match rstrip r with
      | EmptyString => if isspace c then EmptyString else String c EmptyString
      | r' => String c r'
      end
  end.

Definition strip (s : string) : string := rstrip (lstrip s).

(* ===================================================================== *)
(** ** [main]                                                             *)
(* ===================================================================== *)

(** [input_value.strip().lower() == "q"]. *)
Definition is_quit (input_value : string) : bool :=
  (lower (strip input_value) =? "q")%string.

(** The [while True] loop of [main].  Standard input is the list of lines
    still to come; each line carries the environment that a [play_file]
    started by it would find.  [input] raises [EOFError] when no line is
    left. *)
Fixpoint main_loop (input_file : string) (stdin : list (string * PlayEnv)) : M unit :=
  match stdin with
  | [] => emit Prompt ;; raise EndOfInput
  | (input_value, e) :: rest =>
      emit Prompt ;;
      if is_quit input_value then ret tt
      else play_file e input_file ;; main_loop input_file rest
  end.

(** What one run of the script finds outside. *)
Record MainEnv : Type := mkMainEnv
  { input_file : string;          (* args.input_file *)
    input_is_file : bool;         (* os.path.isfile(args.input_file) *)
    room_input : option string;   (* the line typed at "Enter LiveKit room name: " *)
    conn : ConnEnv;
    commands : list (string * PlayEnv) }.

(** [main()].  The second component is the world of the streamer, [None]
    when [AudioStreamer(room_name)] was never reached. *)
Definition main (m : MainEnv) : result unit * option World :=
  if negb (input_is_file m) then (Raise InputFileNotFound, None)
  else
    match room_input m with
    | None => (Raise EndOfInput, None)
    | Some line =>
        let room_name := strip line in
        if (room_name =? "")%string then (Raise EmptyRoomName, None)
        else
          let (r, w) :=
            try_finally
              (connect (conn m) ;; main_loop (input_file m) (commands m))
              disconnect
              (new_world room_name) in
          (r, Some w)
    end.

(** [asyncio.run(main())] at top level: an exception that leaves [main]
    ends the interpreter with status 1. *)
Definition exit_status {A} (r : result A) : Z :=
  match r with Ok _ => 0%Z | Raise _ => 1%Z end.

(** A session: calls of [connect], [play_file] and [disconnect] in any order,
    each with its own environment; an exception ends the call that raised it
    and the session goes on, as for a caller that catches it. *)
Inductive Call : Type :=
| CallConnect (e : ConnEnv)
| CallPlayFile (e : PlayEnv) (file_path : string)
| CallDisconnect.

Definition run_call (c : Call) (w : World) : World :=
  match c with
  | CallConnect e => snd (connect e w)
  | CallPlayFile e f => snd (play_file e f w)
  | CallDisconnect => snd (disconnect w)
  end.

Definition run_calls (cs : list Call) (w : World) : World :=
  fold_left (fun w c => run_call c w) cs w.

Definition is_disconnect_call (c : Call) : bool :=
  match c with CallDisconnect => true | _ => false end.

(* ===================================================================== *)
(** ** The frame sequence in the words of the specification               *)
(* ===================================================================== *)

(** [ceil(a / b)] on naturals. *)
Definition ceil_div (a b : nat) : nat := (a + b - 1) / b.

(** A chunk followed by silence up to the length of a full frame. *)
Definition pad_silence (chunk : bytes) : bytes :=
  chunk ++ repeat x00 (bytes_per_frame - length chunk).

Definition frame_of (chunk : bytes) : AudioFrame :=
  mkAudioFrame (pad_silence chunk) 24000 1 frame_size.

(** The [i]-th stretch of [bytes_per_frame] bytes of a stream (shorter, or
    empty, where the stream ends). *)
Definition chunk_at (i : nat) (s : bytes) : bytes :=
  firstn bytes_per_frame (skipn (i * bytes_per_frame) s).

(** One frame for each of the [ceil(L / F)] stretches of the stream. *)
Definition chunker_frames (s : bytes) : list AudioFrame :=
  map (fun i => frame_of (chunk_at i s))
      (seq 0 (ceil_div (length s) bytes_per_frame)).

(** The world after the audio source has accepted the frames [fs]. *)
Definition push_frames (fs : list AudioFrame) (w : World) : World :=
  mkWorld
    (mkAudioStreamer (room_name (self w)) (room_connected (self w))
                     (audio_source (self w) ++ fs) (is_connected (self w))
                     (is_publishing (self w)) (current_track (self w)))
    (procs w) (trace w).

(** The same decoder with another way of ending. *)
Definition with_exit (code : Z) (early : bool) (e : PlayEnv) : PlayEnv :=
  mkPlayEnv (probe_result e) (ffmpeg_starts e) (dec_stdout e) (dec_stdout_end e)
            code early (sink e).

(** Every field of the streamer except the queue of the audio source. *)
Definition same_session (s s' : AudioStreamer) : Prop :=
  room_name s' = room_name s /\
  room_connected s' = room_connected s /\
  is_connected s' = is_connected s /\
  is_publishing s' = is_publishing s /\
  current_track s' = current_track s.

(** The line that [play_file] logs after the probe. *)
Definition probe_log (e : PlayEnv) : Event :=
  match probe_result e with
  | Some duration => Log Info (AudioDuration duration)
  | None => Log Warning NoDuration
  end.

(** The world of [play_file] when it enters its [try] block. *)
Definition started (e : PlayEnv) (file_path : string) (w : World) : World :=
  mkWorld (self w) (procs w ++ [Running])
          ((((trace w ++ [Log Info (Playing file_path)]) ++ [Probe file_path])
              ++ [probe_log e]) ++ [Spawn (length (procs w)) file_path]).

(** The world of [play_file] when it leaves its [finally] block. *)
Definition finished (e : PlayEnv) (pid : nat) (w : World) : World :=
  mkWorld (self w)
          (update_proc pid (waited e) (update_proc pid (terminated e) (procs w)))
          (((trace w ++ [Terminate pid]) ++ [Wait pid]) ++ [Log Info FinishedPlaying]).

(** Events that stay on the machine of the script: they do not reach the
    room. *)
Definition local_event (ev : Event) : bool :=
  match ev with
  | Log _ _ | Probe _ | Spawn _ _ | Terminate _ | Wait _ | Prompt => true
  | RoomConnect _ _ | CreateTrack _ | PublishTrack _ | RoomDisconnect => false
  end.

(** Events of a playback: what [play_file] itself does to the outside. *)
Definition playback_event (ev : Event) : bool :=
  match ev with
  | Log _ _ | Probe _ | Spawn _ _ | Terminate _ | Wait _ => true
  | _ => false
  end.

(** [avoids q p]: no event of kind [q] is counted by [p]. *)
Definition avoids (q p : Event -> bool) : Prop :=
  forall ev, q ev = true -> p ev = false.

(** The frame sequence that the specification asks of a stream [s] of
    [L] bytes, with [F] bytes to the frame: [ceil(L / F)] frames; the frames
    before the last carry [F] bytes of the stream each; a last frame that is
    not full carries the [L mod F] bytes left and then zeros; when [F]
    divides [L] no frame is padded, and the empty stream gives no frame. *)
Definition chunker_contract (s : bytes) (frames : list AudioFrame) : Prop :=
  let L := length s in
  let F := bytes_per_frame in
  length frames = ceil_div L F /\
  (forall i, i < L / F ->
     nth_error frames i =
     Some (mkAudioFrame (firstn F (skipn (i * F) s)) 24000 1 frame_size)) /\
  (L mod F <> 0 ->
     nth_error frames (L / F) =
     Some (mkAudioFrame (skipn (L / F * F) s ++ repeat x00 (F - L mod F))
                        24000 1 frame_size)) /\
  (L mod F = 0 -> length frames = L / F) /\
  (L = 0 -> frames = []).

(* ===================================================================== *)
(** ** Concrete runs                                                      *)
(* ===================================================================== *)

Definition demo_conn : ConnEnv :=
  mkConnEnv (Some "wss://room.example"%string) (Some "key"%string)
            (Some "secret"%string) true true.

(** A streamer after one successful [connect]. *)
Definition connected_world : World :=
  snd (connect demo_conn (new_world "demo"%string)).

(** A decoder that writes [out], closes its output and exits with [code];
    the audio source accepts whatever it is given. *)
Definition decoder (out : bytes) (code : Z) : PlayEnv :=
  mkPlayEnv (Some 1000%Z) true out EndOfFile code true (fun _ => Accept).

(** The same, with an audio source that answers the first frame by [r]. *)
Definition decoder_sink (out : bytes) (r : SinkReply) : PlayEnv :=
  mkPlayEnv (Some 1000%Z) true out EndOfFile 0%Z false
            (fun k => match k with O => r | S _ => Accept end).

(** A decoder whose output breaks with a read error after [out]. *)
Definition decoder_broken (out : bytes) : PlayEnv :=
  mkPlayEnv None true out ReadFailure 1%Z true (fun _ => Accept).

Definition pcm (n : nat) : bytes := repeat x01 n.


(** A run of the script with two lines of input waiting; the audio source
    rejects the first frame of the first playback. *)
Definition failing_run : MainEnv :=
  mkMainEnv "a.mp3" true (Some "demo"%string) demo_conn
            [(EmptyString, decoder_sink (pcm 1920) Reject);
             (EmptyString, decoder (pcm 1920) 0)].

(** A run of the script where the operator answers the room prompt with a
    tab and a space. *)
Definition blank_room_run : MainEnv :=
  mkMainEnv "a.mp3" true (Some (String "009"%char " ")) demo_conn
            [(EmptyString, decoder (pcm 1920) 0)].

(* ===================================================================== *)
(** ** Vocabulary for the properties of whole sessions                    *)
(* ===================================================================== *)

(** [all([livekit_url, livekit_api_key, livekit_api_secret])]. *)
Definition credentials_ok (ce : ConnEnv) : bool :=
  forallb truthy [LIVEKIT_URL ce; LIVEKIT_API_KEY ce; LIVEKIT_API_SECRET ce].


(** A frame in the format of [rtc.AudioSource(24000, 1)]: 20 ms of 16-bit
    mono audio at 24 kHz. *)
Definition standard_frame (f : AudioFrame) : Prop :=
  length (frame_data f) = bytes_per_frame /\
  sample_rate f = 24000%Z /\
  num_channels f = 1%Z /\
  samples_per_channel f = frame_size.

Definition reaped (p : ProcState) : bool :=
  match p with Reaped _ => true | _ => false end.

(** A playback where nothing goes wrong: the decoder starts, writes whole
    samples and closes its output, and the audio source takes every frame. *)
Definition sound_playback (e : PlayEnv) : Prop :=
  ffmpeg_starts e = true /\
  dec_stdout_end e = EndOfFile /\
  (forall k, sink e k = Accept) /\
  Nat.even (length (dec_stdout e)) = true.

(** The same playback with another answer of the probe. *)
Definition with_probe (r : option Z) (e : PlayEnv) : PlayEnv :=
  mkPlayEnv r (ffmpeg_starts e) (dec_stdout e) (dec_stdout_end e)
            (dec_exit e) (dec_exited_early e) (sink e).

(** The same world with another trace. *)
Definition with_trace (t : list Event) (w : World) : World :=
  mkWorld (self w) (procs w) t.

Fixpoint all_space (s : string) : bool :=
  match s with
  | EmptyString => true
  | String c r => isspace c && all_space r
  end.

(** The exit status with which [wait] collects a decoder of [play_file]. *)
Definition collected_status (e : PlayEnv) : Z :=
  if dec_exited_early e then dec_exit e else SIGTERM_status.

(** The frames of a list of playbacks, one after the other. *)
Definition frames_of_playbacks (plays : list (string * PlayEnv)) : list AudioFrame :=
  flat_map (fun p => chunker_frames (dec_stdout (snd p))) plays.

(** A room that lets the streamer in but refuses the publication. *)
Definition conn_no_publish : ConnEnv :=
  mkConnEnv (Some "wss://room.example"%string) (Some "key"%string)
            (Some "secret"%string) true false.


(** A run of the script: two playbacks, then [Q]. *)
Definition quitting_run : MainEnv :=
  mkMainEnv "a.mp3" true (Some " demo "%string) demo_conn
            [(EmptyString, decoder (pcm 1400) 0);
             ("again"%string, decoder (pcm 960) 0);
             ("Q"%string, decoder (pcm 960) 0);
             (EmptyString, decoder (pcm 960) 0)].

(** A run of the script whose input ends after one playback. *)
Definition unattended_run : MainEnv :=
  mkMainEnv "a.mp3" true (Some "demo"%string) demo_conn
            [(EmptyString, decoder (pcm 1400) 0)].

(** The world in which a run of [main] leaves its streamer (a new world
    when the run never created one). *)
Definition final_world (m : MainEnv) : World :=
  match snd (main m) with
  | Some w => w
  | None => new_world EmptyString
  end.

(* ===================================================================== *)
(** * Properties                                                          *)
(* ===================================================================== *)

(** ** Samples and bytes *)

Section Samples.

Lemma bytes_per_frame_eq : bytes_per_frame = 960.
Proof. reflexivity. Qed.

Lemma byte_val_range (b : byte) : (0 <= byte_val b < 256)%Z.
Proof.
  unfold byte_val. pose proof (Byte.to_N_bounded b) as Hb.
  lia.
Qed.

Lemma byte_of_Z_val (b : byte) : byte_of_Z (byte_val b) = b.
Proof.
  unfold byte_of_Z. rewrite Z.mod_small by apply byte_val_range.
  unfold byte_val. rewrite N2Z.id, Byte.of_to_N. reflexivity.
Qed.

(** Reading two bytes as a sample and writing the sample back gives the two
    bytes: the conversion of [play_file] never alters audio data. *)
Lemma bytes_of_int16_of_bytes (lo hi : byte) :
  bytes_of_int16 (int16_of_bytes lo hi) = [lo; hi].
Proof.
  unfold bytes_of_int16, int16_of_bytes.
  pose proof (byte_val_range lo) as Hlo. pose proof (byte_val_range hi) as Hhi.
  set (u := (byte_val lo + 256 * byte_val hi)%Z).
  assert (Hu : ((if (u <? 32768)%Z then u else (u - 65536)%Z) mod 65536 = u)%Z).
  { destruct (Z.ltb_spec u 32768); subst u.
    - apply Z.mod_small. lia.
    - symmetry. apply Z.mod_unique with (q := (-1)%Z); lia. }
  cbv zeta. rewrite Hu.
  assert (H1 : byte_of_Z u = lo).
  { unfold byte_of_Z.
    replace (u mod 256)%Z with (byte_val lo).
    - rewrite <- (byte_of_Z_val lo) at 2. unfold byte_of_Z.
      rewrite Z.mod_small by lia. reflexivity.
    - subst u. apply Z.mod_unique with (q := byte_val hi); lia. }
  assert (H2 : (u / 256 = byte_val hi)%Z).
  { subst u. symmetry. apply Z.div_unique with (r := byte_val lo); lia. }
  rewrite H1, H2, byte_of_Z_val. reflexivity.
Qed.

Lemma pairs_ind (A : Type) (P : list A -> Prop) :
  P [] -> (forall a, P [a]) -> (forall a b l, P l -> P (a :: b :: l)) ->
  forall l, P l.
Proof.
  intros H0 H1 H2 l.
  assert (H : P l /\ forall a, P (a :: l)).
  { induction l as [|b l [IH1 IH2]]; split; auto. }
  apply H.
Qed.

Lemma frombuffer_tobytes (data : bytes) (a : list Z) :
  frombuffer data = Some a -> tobytes a = data.
Proof.
  revert a. induction data as [| b | lo hi rest IH] using pairs_ind; intros a H.
  - inversion H. reflexivity.
  - discriminate H.
  - cbn [frombuffer] in H. destruct (frombuffer rest) as [xs|]; [ | discriminate H ].
    inversion H; subst; clear H.
    unfold tobytes. cbn [flat_map]. rewrite bytes_of_int16_of_bytes.
    fold (tobytes xs). rewrite (IH xs eq_refl). reflexivity.
Qed.

Lemma frombuffer_length (data : bytes) (a : list Z) :
  frombuffer data = Some a -> length data = 2 * length a.
Proof.
  revert a. induction data as [| b | lo hi rest IH] using pairs_ind; intros a H.
  - inversion H. reflexivity.
  - discriminate H.
  - cbn [frombuffer] in H. destruct (frombuffer rest) as [xs|]; [ | discriminate H ].
    inversion H; subst; clear H. cbn [length]. rewrite (IH xs eq_refl). lia.
Qed.

(** [np.frombuffer] accepts exactly the buffers of even size. *)
Lemma frombuffer_even (data : bytes) :
  Nat.even (length data) = true -> exists a, frombuffer data = Some a.
Proof.
  induction data as [| b | lo hi rest IH] using pairs_ind; intros H.
  - exists []. reflexivity.
  - discriminate H.
  - cbn [length Nat.even] in H. destruct (IH H) as [xs Hxs].
    exists (int16_of_bytes lo hi :: xs). cbn [frombuffer]. rewrite Hxs. reflexivity.
Qed.

Lemma frombuffer_odd (data : bytes) :
  Nat.even (length data) = false -> frombuffer data = None.
Proof.
  induction data as [| b | lo hi rest IH] using pairs_ind; intros H.
  - discriminate H.
  - reflexivity.
  - cbn [length Nat.even] in H. cbn [frombuffer]. rewrite (IH H). reflexivity.
Qed.

Lemma tobytes_app (a b : list Z) : tobytes (a ++ b) = tobytes a ++ tobytes b.
Proof. unfold tobytes. apply flat_map_app. Qed.

Lemma tobytes_zeros (n : nat) : tobytes (repeat 0%Z n) = repeat x00 (2 * n).
Proof.
  induction n as [|n IH]; [ reflexivity | ].
  replace (2 * S n) with (S (S (2 * n))) by lia.
  cbn [repeat]. unfold tobytes in *. cbn [flat_map]. rewrite IH. reflexivity.
Qed.

End Samples.

(** ** The frame loop *)

Section FrameLoop.

Variable e : PlayEnv.

Lemma frame_loop_eq (k : nat) (p : Pipe) (w : World) :
  frame_loop e k p w =
  match pipe_read bytes_per_frame p with
  | (Raise err, _) => (Raise err, w)
  | (Ok [], _) => (Ok tt, w)
  | (Ok (b :: data), p') =>
      match loop_body e k (b :: data) w with
      | (Ok _, w') => frame_loop e (S k) p' w'
      | (Raise err, w') => (Raise err, w')
      end
  end.
Proof.
  rewrite frame_loop_equation_1.
  destruct (inspect (pipe_read bytes_per_frame p)) as [y Hy].
  destruct y as [[d|err] p']; [ | simpl; rewrite Hy; reflexivity ].
  destruct d as [|b d]; simpl; [ rewrite Hy; reflexivity | ].
  destruct (loop_body e k (b :: d) w) as [[[]|err] w'] eqn:Hbody;
    simpl; rewrite Hy, Hbody; reflexivity.
Qed.

Lemma frame_loop_break (k : nat) (p p' : Pipe) (w : World) :
  pipe_read bytes_per_frame p = (Ok [], p') ->
  frame_loop e k p w = (Ok tt, w).
Proof. intros H. rewrite frame_loop_eq, H. reflexivity. Qed.

Lemma frame_loop_read_error (k : nat) (p p' : Pipe) (w : World) (err : exn) :
  pipe_read bytes_per_frame p = (Raise err, p') ->
  frame_loop e k p w = (Raise err, w).
Proof. intros H. rewrite frame_loop_eq, H. reflexivity. Qed.

Lemma frame_loop_step (k : nat) (p p' : Pipe) (w : World) (data : bytes) :
  pipe_read bytes_per_frame p = (Ok data, p') -> data <> [] ->
  frame_loop e k p w =
  match loop_body e k data w with
  | (Ok _, w') => frame_loop e (S k) p' w'
  | (Raise err, w') => (Raise err, w')
  end.
Proof.
  intros H Hne. rewrite frame_loop_eq, H.
  destruct data as [|b data]; [ contradiction | reflexivity ].
Qed.

Lemma pipe_read_shrinks (p p' : Pipe) (data : bytes) :
  pipe_read bytes_per_frame p = (Ok data, p') -> data <> [] ->
  length (buffered p') < length (buffered p).
Proof.
  unfold pipe_read.
  destruct (Nat.leb_spec bytes_per_frame (length (buffered p))) as [Hfull|Hshort].
  - intros H _. pose proof (f_equal snd H) as Hp. cbn [snd] in Hp. subst p'.
    cbn [buffered]. rewrite length_skipn. rewrite bytes_per_frame_eq in *. lia.
  - destruct (at_end p); intros H Hne; [ | discriminate H ].
    pose proof (f_equal snd H) as Hp. cbn [snd] in Hp. subst p'.
    assert (Hb : buffered p = data) by congruence.
    cbn [buffered]. rewrite Hb. destruct data; [ contradiction | cbn [length]; lia ].
Qed.

(** At the end of a stream that closes normally, [read] hands out the stream
    in stretches of [bytes_per_frame] bytes. *)
Lemma pipe_read_eof (s : bytes) :
  pipe_read bytes_per_frame (mkPipe s EndOfFile) =
  (Ok (firstn bytes_per_frame s), mkPipe (skipn bytes_per_frame s) EndOfFile).
Proof.
  unfold pipe_read. cbn [buffered at_end].
  destruct (Nat.leb_spec bytes_per_frame (length s)) as [Hfull|Hshort];
    [ reflexivity | ].
  rewrite firstn_all2, skipn_all2 by lia. reflexivity.
Qed.

Lemma make_frame_even (data : bytes) (w : World) :
  Nat.even (length data) = true -> length data <= bytes_per_frame ->
  make_frame data w = (Ok (frame_of data), w).
Proof.
  intros Hev Hle. unfold make_frame.
  destruct (frombuffer_even data Hev) as [a Ha]. rewrite Ha.
  pose proof (frombuffer_length _ _ Ha) as Hlen.
  pose proof (frombuffer_tobytes _ _ Ha) as Hbytes.
  unfold ret, frame_of, pad_silence. do 3 f_equal.
  destruct (Nat.ltb_spec (length a) frame_size) as [Hlt|Hge].
  - unfold np_pad. rewrite tobytes_app, tobytes_zeros, Hbytes. do 2 f_equal.
    unfold bytes_per_frame. lia.
  - replace (bytes_per_frame - length data) with 0
      by (unfold bytes_per_frame in *; lia).
    cbn [repeat]. rewrite app_nil_r. exact Hbytes.
Qed.

Lemma make_frame_odd (data : bytes) (w : World) :
  Nat.even (length data) = false ->
  make_frame data w = (Raise BufferSizeError, w).
Proof.
  intros Hodd. unfold make_frame. rewrite (frombuffer_odd data Hodd). reflexivity.
Qed.

(** Every frame made from a read of at most [bytes_per_frame] bytes holds
    exactly [bytes_per_frame] bytes. *)
Lemma make_frame_length (data : bytes) (w w' : World) (frame : AudioFrame) :
  length data <= bytes_per_frame ->
  make_frame data w = (Ok frame, w') ->
  length (frame_data frame) = bytes_per_frame /\
  samples_per_channel frame = frame_size.
Proof.
  intros Hle H. destruct (Nat.even (length data)) eqn:Hev.
  - rewrite (make_frame_even data w Hev Hle) in H. injection H as <- <-.
    unfold frame_of, pad_silence. cbn [frame_data samples_per_channel].
    rewrite length_app, repeat_length. split; [ lia | reflexivity ].
  - rewrite (make_frame_odd data w Hev) in H. discriminate H.
Qed.

Lemma loop_body_accept (k : nat) (data : bytes) (w : World) :
  sink e k = Accept ->
  Nat.even (length data) = true -> length data <= bytes_per_frame ->
  loop_body e k data w = (Ok tt, push_frames [frame_of data] w).
Proof.
  intros Hsink Hev Hle. unfold loop_body, bind.
  rewrite (make_frame_even data w Hev Hle).
  unfold capture_frame. rewrite Hsink. reflexivity.
Qed.

Lemma push_frames_nil (w : World) : push_frames [] w = w.
Proof.
  destruct w as [[rn rc src ic ip ct] ps tr]. unfold push_frames. cbn.
  rewrite app_nil_r. reflexivity.
Qed.

Lemma push_frames_app (fs gs : list AudioFrame) (w : World) :
  push_frames (fs ++ gs) w = push_frames gs (push_frames fs w).
Proof. unfold push_frames. cbn. rewrite app_assoc. reflexivity. Qed.

Lemma ceil_div_succ (L : nat) :
  0 < L ->
  ceil_div L bytes_per_frame = S (ceil_div (L - bytes_per_frame) bytes_per_frame).
Proof.
  intros HL. unfold ceil_div. rewrite bytes_per_frame_eq.
  destruct (Nat.lt_ge_cases L 960) as [Hlt|Hge].
  - replace (L - 960) with 0 by lia.
    rewrite (Nat.div_small (0 + 960 - 1)) by lia.
    symmetry. apply Nat.div_unique with (r := L - 1); lia.
  - replace (L + 960 - 1) with ((L - 960 + 960 - 1) + 1 * 960) by lia.
    rewrite Nat.div_add by lia. lia.
Qed.

Lemma chunker_frames_nil : chunker_frames [] = [].
Proof. reflexivity. Qed.

Lemma chunker_frames_cons (s : bytes) :
  s <> [] ->
  chunker_frames s =
  frame_of (firstn bytes_per_frame s) :: chunker_frames (skipn bytes_per_frame s).
Proof.
  intros Hne. unfold chunker_frames.
  rewrite ceil_div_succ by (destruct s; [ contradiction | cbn [length]; lia ]).
  rewrite length_skipn. cbn [seq map]. f_equal.
  rewrite <- seq_shift, map_map. apply map_ext. intros i.
  unfold chunk_at. rewrite skipn_skipn. do 3 f_equal. lia.
Qed.

(** The loop on a stream of whole samples that closes normally, with an
    audio source that accepts every frame: the frames of the specification
    reach the source, in order, and the loop ends without an exception. *)
Lemma frame_loop_frames :
  (forall j, sink e j = Accept) ->
  forall (n : nat) (s : bytes) (k : nat) (w : World),
    length s < n -> Nat.even (length s) = true ->
    frame_loop e k (mkPipe s EndOfFile) w =
    (Ok tt, push_frames (chunker_frames s) w).
Proof.
  intros Hsink. induction n as [|n IH]; intros s k w Hn Hev; [ lia | ].
  destruct s as [|b s'] eqn:Hs.
  - assert (Hr : pipe_read bytes_per_frame (mkPipe [] EndOfFile)
                 = (Ok [], mkPipe [] EndOfFile)) by reflexivity.
    rewrite (frame_loop_break k _ _ w Hr), chunker_frames_nil, push_frames_nil.
    reflexivity.
  - rewrite <- Hs in *. assert (Hne : s <> []) by (rewrite Hs; discriminate).
    assert (Hdata : firstn bytes_per_frame s <> []).
    { rewrite Hs, bytes_per_frame_eq. discriminate. }
    rewrite (frame_loop_step k _ _ w _ (pipe_read_eof s) Hdata).
    assert (Hlen : length (firstn bytes_per_frame s) <= bytes_per_frame)
      by (rewrite length_firstn; lia).
    assert (Hev1 : Nat.even (length (firstn bytes_per_frame s)) = true).
    { rewrite length_firstn.
      destruct (Nat.min_spec bytes_per_frame (length s)) as [[_ ->]|[_ ->]];
        [ reflexivity | exact Hev ]. }
    rewrite (loop_body_accept k (firstn bytes_per_frame s) w (Hsink k) Hev1 Hlen).
    rewrite IH.
    + rewrite (chunker_frames_cons s Hne).
      change (frame_of (firstn bytes_per_frame s) :: chunker_frames (skipn bytes_per_frame s))
        with ([frame_of (firstn bytes_per_frame s)] ++ chunker_frames (skipn bytes_per_frame s)).
      rewrite push_frames_app. reflexivity.
    + rewrite length_skipn. rewrite Hs in *. cbn [length] in *.
      rewrite bytes_per_frame_eq. lia.
    + rewrite length_skipn.
      destruct (Nat.le_gt_cases bytes_per_frame (length s)) as [Hfull|Hshort].
      * rewrite Nat.even_sub by exact Hfull. rewrite Hev. reflexivity.
      * replace (length s - bytes_per_frame) with 0 by lia. reflexivity.
Qed.

End FrameLoop.

(** ** What [play_file] does to the world *)

Section PlayFile.

Variable e : PlayEnv.
Variable file_path : string.

Lemma make_frame_world (data : bytes) (w : World) :
  snd (make_frame data w) = w.
Proof. unfold make_frame. destruct (frombuffer data); reflexivity. Qed.

Lemma loop_body_session (k : nat) (data : bytes) (w : World) :
  procs (snd (loop_body e k data w)) = procs w /\
  trace (snd (loop_body e k data w)) = trace w /\
  same_session (self w) (self (snd (loop_body e k data w))).
Proof.
  unfold loop_body, bind. pose proof (make_frame_world data w) as Hw.
  destruct (make_frame data w) as [[frame|err] w1]; cbn [snd] in Hw; subst w1.
  - unfold capture_frame, modify_self, raise, push_source, same_session.
    destruct (sink e k);
      cbn [snd procs trace self room_name room_connected is_connected
           is_publishing current_track];
      tauto.
  - unfold same_session. cbn [snd]. tauto.
Qed.

(** The frame loop touches nothing but the queue of the audio source. *)
Lemma frame_loop_session (n : nat) :
  forall (k : nat) (p : Pipe) (w : World),
    length (buffered p) < n ->
    procs (snd (frame_loop e k p w)) = procs w /\
    trace (snd (frame_loop e k p w)) = trace w /\
    same_session (self w) (self (snd (frame_loop e k p w))).
Proof.
  induction n as [|n IH]; intros k p w Hn; [ lia | ].
  destruct (pipe_read bytes_per_frame p) as [[data|err] p'] eqn:Hread.
  - destruct data as [|b data].
    + rewrite (frame_loop_break e k _ _ w Hread). unfold same_session. cbn. tauto.
    + assert (Hne : b :: data <> []) by discriminate.
      rewrite (frame_loop_step e k _ _ w _ Hread Hne).
      pose proof (loop_body_session k (b :: data) w) as (Hp & Ht & Hs).
      destruct (loop_body e k (b :: data) w) as [[[]|err] w1]; cbn [snd] in *.
      * pose proof (pipe_read_shrinks _ _ _ Hread Hne) as Hlt.
        destruct (IH (S k) p' w1 ltac:(lia)) as (Hp' & Ht' & Hs').
        unfold same_session in *. intuition congruence.
      * tauto.
  - rewrite (frame_loop_read_error e k _ _ w _ Hread). unfold same_session. cbn. tauto.
Qed.

Lemma play_file_not_connected (w : World) :
  is_connected (self w) = false ->
  play_file e file_path w = (Raise NotConnected, w).
Proof.
  intros H. unfold play_file, bind, get_self. rewrite H. reflexivity.
Qed.

Lemma play_file_not_started (w : World) :
  is_connected (self w) = true -> ffmpeg_starts e = false ->
  play_file e file_path w =
  (Raise SpawnFailed,
   mkWorld (self w) (procs w)
           (((trace w ++ [Log Info (Playing file_path)]) ++ [Probe file_path])
              ++ [probe_log e])).
Proof.
  intros Hc Hs. unfold play_file, bind, get_self, probe_duration, probe_log, popen.
  rewrite Hc. cbn. destruct (probe_result e); cbn; rewrite Hs; reflexivity.
Qed.

Lemma play_file_started (w : World) :
  is_connected (self w) = true -> ffmpeg_starts e = true ->
  play_file e file_path w =
  (fst (frame_loop e 0 (process_stdout e) (started e file_path w)),
   finished e (length (procs w))
            (snd (frame_loop e 0 (process_stdout e) (started e file_path w)))).
Proof.
  intros Hc Hs.
  unfold started, finished.
  unfold play_file, bind, get_self, probe_duration, probe_log, popen, try_finally.
  rewrite Hc. cbn. destruct (probe_result e); cbn; rewrite Hs; cbn;
    match goal with |- context [frame_loop ?a ?b ?c ?d] =>
      destruct (frame_loop a b c d) as [r w2] end; reflexivity.
Qed.

Lemma update_proc_last (ps : list ProcState) (f : ProcState -> ProcState)
      (x : ProcState) :
  update_proc (length ps) f (ps ++ [x]) = ps ++ [f x].
Proof. induction ps as [|p ps IH]; cbn; [ reflexivity | rewrite IH; reflexivity ]. Qed.

Lemma count_app (p : Event -> bool) (t u : list Event) :
  count p (t ++ u) = count p t + count p u.
Proof. unfold count. rewrite filter_app, length_app. reflexivity. Qed.

Lemma count_avoids (q p : Event -> bool) (t : list Event) :
  avoids q p -> forallb q t = true -> count p t = 0.
Proof.
  intros Hp. induction t as [|ev t IH]; intros H; [ reflexivity | ].
  cbn [forallb] in H. apply andb_prop in H as [Hev Ht].
  unfold count in *. cbn [filter]. rewrite (Hp ev Hev). auto.
Qed.

(** [play_file] only appends to the trace, and what it appends are events
    of a playback; of the streamer it changes the queue of the audio source
    only. *)
Lemma play_file_effect (w : World) :
  same_session (self w) (self (snd (play_file e file_path w))) /\
  exists t, trace (snd (play_file e file_path w)) = trace w ++ t /\
            forallb playback_event t = true.
Proof.
  destruct (is_connected (self w)) eqn:Hc.
  - destruct (ffmpeg_starts e) eqn:Hs.
    + rewrite (play_file_started w Hc Hs). cbn [snd].
      destruct (frame_loop_session (S (length (buffered (process_stdout e)))) 0
                  (process_stdout e) (started e file_path w) ltac:(lia))
        as (Hp & Ht & Hsess).
      split; [ exact Hsess | ].
      unfold finished. cbn [trace]. rewrite Ht. unfold started. cbn [trace].
      exists ([Log Info (Playing file_path); Probe file_path; probe_log e;
               Spawn (length (procs w)) file_path;
               Terminate (length (procs w)); Wait (length (procs w));
               Log Info FinishedPlaying]).
      split; [ repeat rewrite <- app_assoc; reflexivity | ].
      unfold probe_log. destruct (probe_result e); reflexivity.
    + rewrite (play_file_not_started w Hc Hs). cbn [snd self trace].
      split; [ unfold same_session; tauto | ].
      exists [Log Info (Playing file_path); Probe file_path; probe_log e].
      split; [ repeat rewrite <- app_assoc; reflexivity | ].
      unfold probe_log. destruct (probe_result e); reflexivity.
  - rewrite (play_file_not_connected w Hc). cbn [snd].
    split; [ unfold same_session; tauto | ].
    exists []. rewrite app_nil_r. split; reflexivity.
Qed.

Lemma play_file_count (p : Event -> bool) (w : World) :
  avoids playback_event p ->
  count p (trace (snd (play_file e file_path w))) = count p (trace w).
Proof.
  intros Hp. destruct (play_file_effect w) as (_ & t & Ht & Hloc).
  rewrite Ht, count_app, (count_avoids playback_event p t Hp Hloc). lia.
Qed.

(** On a connected session the first thing [play_file] does is to log the
    file it plays; it logs no second one and never prompts. *)
Lemma play_file_logs_playing (w : World) :
  is_connected (self w) = true ->
  exists t, trace (snd (play_file e file_path w))
            = trace w ++ Log Info (Playing file_path) :: t /\
            count is_playing t = 0 /\ count is_prompt t = 0.
Proof.
  intros Hc. destruct (ffmpeg_starts e) eqn:Hs.
  - rewrite (play_file_started w Hc Hs). cbn [snd].
    destruct (frame_loop_session (S (length (buffered (process_stdout e)))) 0
                (process_stdout e) (started e file_path w) ltac:(lia))
      as (_ & Ht & _).
    unfold finished. cbn [trace]. rewrite Ht. unfold started. cbn [trace].
    exists ([Probe file_path; probe_log e; Spawn (length (procs w)) file_path;
             Terminate (length (procs w)); Wait (length (procs w));
             Log Info FinishedPlaying]).
    split; [ repeat rewrite <- app_assoc; reflexivity | ].
    unfold probe_log. destruct (probe_result e); split; reflexivity.
  - rewrite (play_file_not_started w Hc Hs). cbn [snd trace].
    exists [Probe file_path; probe_log e].
    split; [ repeat rewrite <- app_assoc; reflexivity | ].
    unfold probe_log. destruct (probe_result e); split; reflexivity.
Qed.

End PlayFile.

(** ** The shape of the frame sequence *)

Section Chunker.

Variable s : bytes.

Let L := length s.
Let F := bytes_per_frame.

Lemma ceil_div_spec :
  ceil_div L F = L / F + (if L mod F =? 0 then 0 else 1).
Proof.
  unfold ceil_div, F. rewrite bytes_per_frame_eq.
  pose proof (Nat.div_mod_eq L 960) as Hdm.
  pose proof (Nat.mod_upper_bound L 960 ltac:(lia)) as Hr.
  destruct (Nat.eqb_spec (L mod 960) 0) as [H0|Hpos].
  - symmetry. apply Nat.div_unique with (r := 959); lia.
  - symmetry. apply Nat.div_unique with (r := L mod 960 - 1); lia.
Qed.

Lemma chunker_frames_length : length (chunker_frames s) = ceil_div L F.
Proof. unfold chunker_frames. rewrite length_map, length_seq. reflexivity. Qed.

Lemma chunker_frames_nth (i : nat) :
  i < ceil_div L F ->
  nth_error (chunker_frames s) i = Some (frame_of (chunk_at i s)).
Proof.
  intros Hi. unfold chunker_frames. rewrite nth_error_map, nth_error_seq.
  fold L F. destruct (Nat.ltb_spec i (ceil_div L F)); [ reflexivity | lia ].
Qed.

(** Before the end of the stream a stretch is full: the frame carries it
    as it is. *)
Lemma chunk_full (i : nat) :
  i < L / F ->
  frame_of (chunk_at i s) =
  mkAudioFrame (firstn F (skipn (i * F) s)) 24000 1 frame_size.
Proof.
  intros Hi. unfold frame_of, pad_silence, chunk_at. fold F.
  assert (Hlen : length (firstn F (skipn (i * F) s)) = F).
  { rewrite length_firstn, length_skipn. fold L.
    pose proof (Nat.div_mod_eq L F) as Hdm.
    unfold F in *. rewrite bytes_per_frame_eq in *. lia. }
  rewrite Hlen, Nat.sub_diag. cbn [repeat]. rewrite app_nil_r. reflexivity.
Qed.

(** The stretch after the last full one holds the [L mod F] bytes that are
    left; its frame ends in silence. *)
Lemma chunk_last :
  L mod F <> 0 ->
  frame_of (chunk_at (L / F) s) =
  mkAudioFrame (skipn (L / F * F) s ++ repeat x00 (F - L mod F)) 24000 1 frame_size.
Proof.
  intros Hr. unfold frame_of, pad_silence, chunk_at. fold F.
  assert (Hlen : length (skipn (L / F * F) s) = L mod F).
  { rewrite length_skipn. fold L. pose proof (Nat.div_mod_eq L F). lia. }
  pose proof (Nat.mod_upper_bound L F) as Hup.
  rewrite firstn_all2 by (rewrite Hlen; unfold F in *; rewrite bytes_per_frame_eq in *; lia).
  rewrite Hlen. reflexivity.
Qed.

End Chunker.

(** ** Playing a stream that closes normally into a willing audio source *)

Lemma play_file_delivers (e : PlayEnv) (file_path : string) (w : World) :
  is_connected (self w) = true ->
  ffmpeg_starts e = true ->
  dec_stdout_end e = EndOfFile ->
  (forall k, sink e k = Accept) ->
  Nat.even (length (dec_stdout e)) = true ->
  play_file e file_path w =
  (Ok tt,
   finished e (length (procs w))
            (push_frames (chunker_frames (dec_stdout e)) (started e file_path w))).
Proof.
  intros Hc Hs Hend Hsink Hev.
  rewrite (play_file_started e file_path w Hc Hs).
  unfold process_stdout. rewrite Hend.
  rewrite (frame_loop_frames e Hsink (S (length (dec_stdout e)))
             (dec_stdout e) 0 (started e file_path w) ltac:(lia) Hev).
  reflexivity.
Qed.

Lemma chunker_frames_contract (s : bytes) :
  chunker_contract s (chunker_frames s).
Proof.
  unfold chunker_contract. cbv zeta.
  pose proof (ceil_div_spec s) as Hceil. cbv zeta in Hceil.
  repeat split.
  - apply chunker_frames_length.
  - intros i Hi. rewrite chunker_frames_nth by (rewrite Hceil; lia).
    f_equal. apply chunk_full. exact Hi.
  - intros Hr. rewrite chunker_frames_nth.
    + f_equal. apply chunk_last. exact Hr.
    + rewrite Hceil.
      destruct (Nat.eqb_spec (length s mod bytes_per_frame) 0); [ contradiction | lia ].
  - intros Hr. rewrite chunker_frames_length, Hceil, Hr. cbn. lia.
  - intros H0. apply length_zero_iff_nil in H0. rewrite H0. reflexivity.
Qed.

(** ** The claims about [play_file] *)

(** C1, amended.  For every byte stream of even length [L] (whole 16-bit
    samples) that the decoder delivers before closing its output, on a
    connected session and with an audio source that accepts every frame,
    [play_file] returns normally and has pushed exactly [ceil(L / F)] frames,
    [F = 960]: each frame before the last carries [F] bytes of the stream, a
    last frame that is not full carries the remaining [L mod F] bytes followed
    by zeros, no frame is padded when [F] divides [L], and no frame is pushed
    when [L = 0]. *)
Theorem play_file_chunks_whole_samples
        (e : PlayEnv) (file_path : string) (w : World) :
  is_connected (self w) = true ->
  ffmpeg_starts e = true ->
  dec_stdout_end e = EndOfFile ->
  (forall k, sink e k = Accept) ->
  Nat.even (length (dec_stdout e)) = true ->
  bytes_per_frame = 960 /\
  fst (play_file e file_path w) = Ok tt /\
  exists frames,
    audio_source (self (snd (play_file e file_path w))) =
      audio_source (self w) ++ frames /\
    chunker_contract (dec_stdout e) frames.
Proof.
  intros Hc Hs Hend Hsink Hev.
  rewrite (play_file_delivers e file_path w Hc Hs Hend Hsink Hev).
  split; [ reflexivity | ]. split; [ reflexivity | ].
  exists (chunker_frames (dec_stdout e)). split.
  - reflexivity.
  - apply chunker_frames_contract.
Qed.

(** 700 samples: two frames, the second with 220 samples and 260 of silence. *)
Lemma play_file_chunks_whole_samples_witness :
  bytes_per_frame = 960 /\
  fst (play_file (decoder (pcm 1400) 0) "a.mp3" connected_world) = Ok tt /\
  exists frames,
    audio_source (self (snd (play_file (decoder (pcm 1400) 0) "a.mp3" connected_world))) =
      audio_source (self connected_world) ++ frames /\
    chunker_contract (dec_stdout (decoder (pcm 1400) 0)) frames.
Proof.
  apply (play_file_chunks_whole_samples (decoder (pcm 1400) 0) "a.mp3" connected_world);
    [ reflexivity | reflexivity | reflexivity | intros k; reflexivity | reflexivity ].
Defined.

(** C1 as stated fails on a stream of odd length: the last read returns an
    odd number of bytes, [np.frombuffer] refuses them, and [play_file] raises
    with the last [ceil] frame missing.  Here [L = 1]: one frame is due and
    none is pushed. *)
Lemma play_file_odd_stream_refused :
  ceil_div (length (dec_stdout (decoder (pcm 1) 0))) bytes_per_frame = 1 /\
  fst (play_file (decoder (pcm 1) 0) "a.mp3" connected_world)
    = Raise BufferSizeError /\
  audio_source (self (snd (play_file (decoder (pcm 1) 0) "a.mp3" connected_world)))
    = audio_source (self connected_world) /\
  ~ (exists frames,
       audio_source (self (snd (play_file (decoder (pcm 1) 0) "a.mp3" connected_world)))
         = audio_source (self connected_world) ++ frames /\
       chunker_contract (dec_stdout (decoder (pcm 1) 0)) frames).
Proof.
  split; [ reflexivity | ]. split; [ reflexivity | ]. split; [ reflexivity | ].
  intros (frames & Hsrc & Hlen & _).
  change (audio_source (self (snd (play_file (decoder (pcm 1) 0) "a.mp3" connected_world))))
    with (@nil AudioFrame) in Hsrc.
  change (audio_source (self connected_world)) with (@nil AudioFrame) in Hsrc.
  cbn [app] in Hsrc. subst frames. discriminate Hlen.
Qed.

(** The frame loop never looks at the way the decoder exits. *)
Lemma frame_loop_exit_irrelevant (e : PlayEnv) (code : Z) (early : bool) (n : nat) :
  forall (k : nat) (p : Pipe) (w : World),
    length (buffered p) < n ->
    frame_loop (with_exit code early e) k p w = frame_loop e k p w.
Proof.
  induction n as [|n IH]; intros k p w Hn; [ lia | ].
  rewrite (frame_loop_eq (with_exit code early e)), (frame_loop_eq e).
  destruct (pipe_read bytes_per_frame p) as [[data|err] p'] eqn:Hread;
    [ | reflexivity ].
  destruct data as [|b data]; [ reflexivity | ].
  change (loop_body (with_exit code early e) k (b :: data) w)
    with (loop_body e k (b :: data) w).
  destruct (loop_body e k (b :: data) w) as [[[]|err] w1]; [ | reflexivity ].
  apply IH.
  assert (Hne : b :: data <> []) by discriminate.
  pose proof (pipe_read_shrinks _ _ _ Hread Hne). lia.
Qed.

Lemma play_file_exit_irrelevant (e : PlayEnv) (code : Z) (early : bool)
      (file_path : string) (w : World) :
  fst (play_file (with_exit code early e) file_path w) = fst (play_file e file_path w) /\
  self (snd (play_file (with_exit code early e) file_path w))
    = self (snd (play_file e file_path w)).
Proof.
  destruct (is_connected (self w)) eqn:Hc.
  - destruct (ffmpeg_starts e) eqn:Hs.
    + rewrite (play_file_started (with_exit code early e) file_path w Hc Hs).
      rewrite (play_file_started e file_path w Hc Hs).
      change (started (with_exit code early e) file_path w) with (started e file_path w).
      change (process_stdout (with_exit code early e)) with (process_stdout e).
      rewrite (frame_loop_exit_irrelevant e code early
                 (S (length (buffered (process_stdout e)))) 0 (process_stdout e)
                 (started e file_path w) ltac:(lia)).
      split; reflexivity.
    + rewrite (play_file_not_started (with_exit code early e) file_path w Hc Hs).
      rewrite (play_file_not_started e file_path w Hc Hs).
      split; reflexivity.
  - rewrite !play_file_not_connected by exact Hc. split; reflexivity.
Qed.

(** C2, amended.  For every [play_file] call on a connected session whose
    decoder process starts, writes a stream of whole samples (even length),
    closes its output and exits with a non-zero status before [terminate] is
    called, and whose audio source accepts every frame: [play_file] delivers
    to the audio source every frame obtainable from the bytes read (the last
    chunk padded with silence) and then returns normally -- no error reaches
    the caller; [wait] collects the non-zero status and nothing looks at it.
    Under the same premises the outcome of [play_file] and the streamer it
    leaves are the same for any other exit status. *)
Theorem play_file_ignores_exit_status
        (e : PlayEnv) (file_path : string) (w : World) (code : Z) (early : bool) :
  is_connected (self w) = true ->
  ffmpeg_starts e = true ->
  dec_stdout_end e = EndOfFile ->
  (forall k, sink e k = Accept) ->
  Nat.even (length (dec_stdout e)) = true ->
  dec_exited_early e = true ->
  dec_exit e <> 0%Z ->
  fst (play_file e file_path w) = Ok tt /\
  audio_source (self (snd (play_file e file_path w))) =
    audio_source (self w) ++ chunker_frames (dec_stdout e) /\
  procs (snd (play_file e file_path w)) = procs w ++ [Reaped (dec_exit e)] /\
  fst (play_file (with_exit code early e) file_path w) = fst (play_file e file_path w) /\
  self (snd (play_file (with_exit code early e) file_path w))
    = self (snd (play_file e file_path w)).
Proof.
  intros Hc Hs Hend Hsink Hev Hearly Hcode.
  pose proof (play_file_exit_irrelevant e code early file_path w) as [Hfst Hself].
  rewrite Hfst, Hself.
  rewrite (play_file_delivers e file_path w Hc Hs Hend Hsink Hev).
  split; [ reflexivity | ]. split; [ reflexivity | ].
  split; [ | split; reflexivity ].
  unfold finished, push_frames, started. cbn [procs snd].
  rewrite !update_proc_last. cbn [terminated waited]. rewrite Hearly. reflexivity.
Qed.

(** Exit status 1 after 300 bytes; the same call with exit status 0. *)
Lemma play_file_ignores_exit_status_witness :
  fst (play_file (decoder (pcm 300) 1) "a.mp3" connected_world) = Ok tt /\
  audio_source (self (snd (play_file (decoder (pcm 300) 1) "a.mp3" connected_world))) =
    audio_source (self connected_world) ++ chunker_frames (dec_stdout (decoder (pcm 300) 1)) /\
  procs (snd (play_file (decoder (pcm 300) 1) "a.mp3" connected_world))
    = procs connected_world ++ [Reaped (dec_exit (decoder (pcm 300) 1))] /\
  fst (play_file (with_exit 0 true (decoder (pcm 300) 1)) "a.mp3" connected_world)
    = fst (play_file (decoder (pcm 300) 1) "a.mp3" connected_world) /\
  self (snd (play_file (with_exit 0 true (decoder (pcm 300) 1)) "a.mp3" connected_world))
    = self (snd (play_file (decoder (pcm 300) 1) "a.mp3" connected_world)).
Proof.
  apply (play_file_ignores_exit_status (decoder (pcm 300) 1) "a.mp3" connected_world
           0%Z true);
    [ reflexivity | reflexivity | reflexivity | intros k; reflexivity
    | reflexivity | reflexivity | discriminate ].
Defined.

(** C2 as stated fails: the decoder exits with status 1 after 300 bytes, and
    [play_file] returns normally, with the one (padded) frame delivered and
    the status 1 collected by [wait]. *)
Lemma play_file_nonzero_exit_returns_normally :
  dec_exit (decoder (pcm 300) 1) = 1%Z /\
  fst (play_file (decoder (pcm 300) 1) "a.mp3" connected_world) = Ok tt /\
  is_ok (fst (play_file (decoder (pcm 300) 1) "a.mp3" connected_world)) = true /\
  length (audio_source (self (snd (play_file (decoder (pcm 300) 1) "a.mp3" connected_world)))) = 1 /\
  procs (snd (play_file (decoder (pcm 300) 1) "a.mp3" connected_world)) = [Reaped 1%Z].
Proof. repeat split. Qed.

(** C4.  Whatever way [play_file] ends -- the loop ran to the end of the
    stream, a read failed, the conversion refused a chunk, the audio source
    rejected a frame or the task was cancelled -- a decoder that was spawned
    has been terminated and waited for when [play_file] hands back control:
    its entry of the process table is [Reaped], and [Terminate] and [Wait] on
    its handle are the last calls of the trace.  When no decoder was spawned
    (session not connected, or no executable) the process table is as it
    was. *)
Theorem play_file_reaps_decoder (e : PlayEnv) (file_path : string) (w : World) :
  let w' := snd (play_file e file_path w) in
  let pid := length (procs w) in
  if is_connected (self w) && ffmpeg_starts e
  then (exists code, procs w' = procs w ++ [Reaped code]) /\
       (exists mid,
          trace w' = trace w ++ mid ++ [Terminate pid; Wait pid; Log Info FinishedPlaying] /\
          In (Spawn pid file_path) mid) /\
       count is_spawn (trace w') = S (count is_spawn (trace w))
  else procs w' = procs w /\
       count is_spawn (trace w') = count is_spawn (trace w).
Proof.
  cbv zeta. destruct (is_connected (self w)) eqn:Hc; cbn [andb].
  - destruct (ffmpeg_starts e) eqn:Hs.
    + rewrite (play_file_started e file_path w Hc Hs). cbn [snd].
      destruct (frame_loop_session e (S (length (buffered (process_stdout e)))) 0
                  (process_stdout e) (started e file_path w) ltac:(lia))
        as (Hp & Ht & _).
      unfold finished. cbn [procs trace]. rewrite Hp, Ht.
      unfold started. cbn [procs trace].
      rewrite !update_proc_last.
      split; [ | split ].
      * destruct (dec_exited_early e); cbn [terminated waited]; eexists; reflexivity.
      * exists [Log Info (Playing file_path); Probe file_path; probe_log e;
                Spawn (length (procs w)) file_path].
        split; [ repeat rewrite <- app_assoc; reflexivity | ].
        cbn [In]. tauto.
      * rewrite !count_app. unfold probe_log.
        destruct (probe_result e); cbn; lia.
    + rewrite (play_file_not_started e file_path w Hc Hs). cbn [snd procs trace].
      split; [ reflexivity | ].
      rewrite !count_app. unfold probe_log. destruct (probe_result e); cbn; lia.
  - rewrite (play_file_not_connected e file_path w Hc). split; reflexivity.
Qed.

(** The exits of [play_file] one by one, each with its decoder collected. *)
Example play_file_exit_paths :
  (* end of the stream *)
  (fst (play_file (decoder (pcm 1920) 0) "a.mp3" connected_world) = Ok tt /\
   procs (snd (play_file (decoder (pcm 1920) 0) "a.mp3" connected_world)) = [Reaped 0%Z]) /\
  (* read error *)
  (fst (play_file (decoder_broken (pcm 1000)) "a.mp3" connected_world) = Raise ReadFailed /\
   procs (snd (play_file (decoder_broken (pcm 1000)) "a.mp3" connected_world)) = [Reaped 1%Z]) /\
  (* the audio source rejects a frame: the decoder still runs and is killed *)
  (fst (play_file (decoder_sink (pcm 1920) Reject) "a.mp3" connected_world) = Raise SinkRejected /\
   procs (snd (play_file (decoder_sink (pcm 1920) Reject) "a.mp3" connected_world))
     = [Reaped SIGTERM_status]) /\
  (* cancellation *)
  (fst (play_file (decoder_sink (pcm 1920) Cancel) "a.mp3" connected_world) = Raise Cancelled /\
   procs (snd (play_file (decoder_sink (pcm 1920) Cancel) "a.mp3" connected_world))
     = [Reaped SIGTERM_status]).
Proof. repeat split. Qed.



(** C7.  A [play_file] that fails on a connected session, for whatever
    reason, leaves the session connected: [is_connected] is still true, the
    track handle, the publishing flag and the room are as before, and the
    call has made no call into the room. *)
Theorem play_file_failure_keeps_session
        (e : PlayEnv) (file_path : string) (w : World) (err : exn) :
  is_connected (self w) = true ->
  fst (play_file e file_path w) = Raise err ->
  let w' := snd (play_file e file_path w) in
  is_connected (self w') = true /\
  current_track (self w') = current_track (self w) /\
  is_publishing (self w') = is_publishing (self w) /\
  room_connected (self w') = room_connected (self w) /\
  room_name (self w') = room_name (self w) /\
  count (fun ev => negb (local_event ev)) (trace w')
    = count (fun ev => negb (local_event ev)) (trace w).
Proof.
  intros Hc _. cbv zeta.
  destruct (play_file_effect e file_path w) as ((Hn & Hr & Hi & Hp & Ht) & _).
  rewrite Hn, Hr, Hi, Hp, Ht. repeat split; try assumption.
  apply play_file_count. intros ev Hev. destruct ev; (discriminate Hev || reflexivity).
Qed.

Lemma play_file_failure_keeps_session_witness :
  let w' := snd (play_file (decoder_sink (pcm 1920) Reject) "a.mp3" connected_world) in
  is_connected (self w') = true /\
  current_track (self w') = current_track (self connected_world) /\
  is_publishing (self w') = is_publishing (self connected_world) /\
  room_connected (self w') = room_connected (self connected_world) /\
  room_name (self w') = room_name (self connected_world) /\
  count (fun ev => negb (local_event ev)) (trace w')
    = count (fun ev => negb (local_event ev)) (trace connected_world).
Proof.
  apply (play_file_failure_keeps_session (decoder_sink (pcm 1920) Reject) "a.mp3"
           connected_world SinkRejected);
    reflexivity.
Defined.

(** ** [connect] and [disconnect] *)

Section Session.


Lemma connect_connected (ce : ConnEnv) (w : World) :
  is_connected (self w) = true ->
  connect ce w =
  (Ok tt, mkWorld (self w) (procs w) (trace w ++ [Log Info AlreadyConnected])).
Proof.
  intros Hc. unfold connect, bind, get_self. rewrite Hc. reflexivity.
Qed.



Lemma disconnect_not_connected (w : World) :
  is_connected (self w) = false -> disconnect w = (Ok tt, w).
Proof. intros Hc. unfold disconnect, bind, get_self. rewrite Hc. reflexivity. Qed.

Lemma disconnect_connected (w : World) :
  is_connected (self w) = true ->
  disconnect w =
  (Ok tt,
   mkWorld (set_is_connected false (set_room_connected false (self w))) (procs w)
           ((trace w ++ [RoomDisconnect]) ++ [Log Info DisconnectedFromRoom])).
Proof. intros Hc. unfold disconnect, bind, get_self. rewrite Hc. reflexivity. Qed.

Lemma disconnect_ok (w : World) : fst (disconnect w) = Ok tt.
Proof.
  destruct (is_connected (self w)) eqn:Hc.
  - rewrite (disconnect_connected w Hc). reflexivity.
  - rewrite (disconnect_not_connected w Hc). reflexivity.
Qed.

Lemma disconnect_is_off (w : World) :
  is_connected (self (snd (disconnect w))) = false.
Proof.
  destruct (is_connected (self w)) eqn:Hc.
  - rewrite (disconnect_connected w Hc). reflexivity.
  - rewrite (disconnect_not_connected w Hc). exact Hc.
Qed.

Lemma disconnect_count (p : Event -> bool) (w : World) :
  p RoomDisconnect = false -> (forall l m, p (Log l m) = false) ->
  count p (trace (snd (disconnect w))) = count p (trace w).
Proof.
  intros H1 H2. destruct (is_connected (self w)) eqn:Hc.
  - rewrite (disconnect_connected w Hc). cbn [snd trace].
    rewrite !count_app. unfold count. cbn [filter]. rewrite H1, H2. cbn. lia.
  - rewrite (disconnect_not_connected w Hc). reflexivity.
Qed.

(** Calls of [connect] and [play_file] on a connected session keep it
    connected, keep its track and make no call into the room. *)
Lemma run_calls_connected (calls : list Call) :
  forall w : World,
    is_connected (self w) = true ->
    forallb (fun c => negb (is_disconnect_call c)) calls = true ->
    is_connected (self (run_calls calls w)) = true /\
    current_track (self (run_calls calls w)) = current_track (self w) /\
    forall p, avoids playback_event p ->
              count p (trace (run_calls calls w)) = count p (trace w).
Proof.
  induction calls as [|c calls IH]; intros w Hc Hcalls.
  - cbn. auto.
  - cbn [forallb] in Hcalls. apply andb_prop in Hcalls as [Hhead Htail].
    unfold run_calls in *. cbn [fold_left].
    assert (Hstep : is_connected (self (run_call c w)) = true /\
                    current_track (self (run_call c w)) = current_track (self w) /\
                    forall p, avoids playback_event p ->
                              count p (trace (run_call c w)) = count p (trace w)).
    { destruct c as [ce|pe f|]; cbn [run_call].
      - rewrite (connect_connected ce w Hc). cbn [snd self trace].
        repeat split; auto. intros p Hp. rewrite count_app.
        unfold count at 2. cbn [filter]. rewrite (Hp (Log Info AlreadyConnected) eq_refl).
        cbn. lia.
      - destruct (play_file_effect pe f w) as ((_ & _ & Hi & _ & Ht) & _).
        rewrite Hi, Ht. repeat split; auto.
        intros p Hp. apply play_file_count. exact Hp.
      - discriminate Hhead. }
    destruct Hstep as (Hc1 & Ht1 & Hcount1).
    destruct (IH (run_call c w) Hc1 Htail) as (Hc2 & Ht2 & Hcount2).
    repeat split.
    + exact Hc2.
    + rewrite Ht2. exact Ht1.
    + intros p Hp. rewrite (Hcount2 p Hp). apply Hcount1. exact Hp.
Qed.

End Session.

(** ** The control loop and [main] *)

Section Main.

Variable file : string.

Lemma is_quit_spec (line : string) :
  is_quit line = true <-> lower (strip line) = "q"%string.
Proof. unfold is_quit. apply String.eqb_eq. Qed.

Lemma main_loop_quit (line : string) (e : PlayEnv)
      (rest : list (string * PlayEnv)) (w : World) :
  is_quit line = true ->
  main_loop file ((line, e) :: rest) w = (Ok tt, snd (emit Prompt w)).
Proof. intros Hq. cbn [main_loop]. unfold bind. cbn. rewrite Hq. reflexivity. Qed.

Lemma main_loop_play (line : string) (e : PlayEnv)
      (rest : list (string * PlayEnv)) (w : World) :
  is_quit line = false ->
  main_loop file ((line, e) :: rest) w =
  match play_file e file (snd (emit Prompt w)) with
  | (Ok _, w1) => main_loop file rest w1
  | (Raise err, w1) => (Raise err, w1)
  end.
Proof. intros Hq. cbn [main_loop]. unfold bind. cbn. rewrite Hq. reflexivity. Qed.

Lemma playback_is_local (ev : Event) :
  playback_event ev = true -> local_event ev = true.
Proof. destruct ev; cbn; congruence. Qed.

(** The loop only appends to the trace. *)
Lemma main_loop_appends (stdin : list (string * PlayEnv)) :
  forall w : World,
    exists t, trace (snd (main_loop file stdin w)) = trace w ++ t.
Proof.
  induction stdin as [|[line e] rest IH]; intros w.
  - exists [Prompt]. reflexivity.
  - destruct (is_quit line) eqn:Hq.
    + rewrite (main_loop_quit line e rest w Hq). exists [Prompt]. reflexivity.
    + rewrite (main_loop_play line e rest w Hq).
      destruct (play_file_effect e file (snd (emit Prompt w))) as (_ & t & Ht & _).
      destruct (play_file e file (snd (emit Prompt w))) as [[[]|err] w1];
        cbn [snd] in Ht.
      * destruct (IH w1) as [t2 Ht2]. exists ([Prompt] ++ t ++ t2).
        rewrite Ht2, Ht. cbn [emit snd trace]. rewrite <- !app_assoc. reflexivity.
      * exists ([Prompt] ++ t). cbn [snd]. rewrite Ht. cbn [emit snd trace].
        rewrite <- !app_assoc. reflexivity.
Qed.

(** The loop makes no call into the room. *)
Lemma main_loop_count (p : Event -> bool) (stdin : list (string * PlayEnv)) :
  avoids local_event p ->
  forall w : World,
    count p (trace (snd (main_loop file stdin w))) = count p (trace w).
Proof.
  intros Hp.
  assert (Hprompt : forall w, count p (trace (snd (emit Prompt w))) = count p (trace w)).
  { intros w. cbn [emit snd trace]. rewrite count_app. unfold count at 2.
    cbn [filter]. rewrite (Hp Prompt eq_refl). cbn. lia. }
  assert (Hplay : avoids playback_event p).
  { intros ev Hev. apply Hp, playback_is_local, Hev. }
  induction stdin as [|[line e] rest IH]; intros w.
  - apply (Hprompt w).
  - destruct (is_quit line) eqn:Hq.
    + rewrite (main_loop_quit line e rest w Hq). apply Hprompt.
    + rewrite (main_loop_play line e rest w Hq).
      pose proof (play_file_count e file p (snd (emit Prompt w)) Hplay) as Hc.
      destruct (play_file e file (snd (emit Prompt w))) as [[[]|err] w1];
        cbn [snd] in *.
      * rewrite IH, Hc. apply Hprompt.
      * rewrite Hc. apply Hprompt.
Qed.

Lemma try_finally_disconnect (A : Type) (body : M A) (w : World) :
  try_finally body disconnect w =
  (fst (body w), snd (disconnect (snd (body w)))).
Proof.
  unfold try_finally. destruct (body w) as [r w1]. cbn [fst snd].
  pose proof (disconnect_ok w1) as Hok.
  destruct (disconnect w1) as [[[]|err] w2]; cbn in *; [ reflexivity | discriminate ].
Qed.

(** A run of [main] that gets as far as the streamer. *)
Lemma main_running (m : MainEnv) (line : string) :
  input_is_file m = true -> room_input m = Some line ->
  strip line <> EmptyString ->
  main m =
  (fst ((connect (conn m) ;; main_loop (input_file m) (commands m))
          (new_world (strip line))),
   Some (snd (disconnect
                (snd ((connect (conn m) ;; main_loop (input_file m) (commands m))
                        (new_world (strip line))))))).
Proof.
  intros Hf Hr Hne. unfold main. rewrite Hf, Hr. cbn [negb].
  destruct (String.eqb_spec (strip line) EmptyString) as [Heq|_];
    [ contradiction | ].
  rewrite try_finally_disconnect. reflexivity.
Qed.

Lemma main_not_running (m : MainEnv) :
  input_is_file m = false \/ room_input m = None \/
  (exists line, room_input m = Some line /\ strip line = EmptyString) ->
  snd (main m) = None.
Proof.
  unfold main. intros [Hf | [Hr | (line & Hr & Hs)]].
  - rewrite Hf. reflexivity.
  - rewrite Hr. destruct (input_is_file m); reflexivity.
  - rewrite Hr, Hs. destruct (input_is_file m); reflexivity.
Qed.

End Main.


(** ** The claims about the session *)




(** C8.  [disconnect] never raises and always leaves the session not
    connected.  On a session that is not connected it changes nothing at all
    (in particular it does not call the room); on a connected one it calls
    [room.disconnect] once.  A second [disconnect] right after a first is
    therefore a no-op. *)
Theorem disconnect_is_safe (w : World) :
  let w' := snd (disconnect w) in
  fst (disconnect w) = Ok tt /\
  is_connected (self w') = false /\
  (if is_connected (self w)
   then count is_room_disconnect (trace w') = S (count is_room_disconnect (trace w))
   else w' = w) /\
  disconnect w' = (Ok tt, w').
Proof.
  cbv zeta.
  pose proof (disconnect_is_off w) as Hoff.
  split; [ apply disconnect_ok | ]. split; [ exact Hoff | ].
  split; [ | apply disconnect_not_connected, Hoff ].
  destruct (is_connected (self w)) eqn:Hc.
  - rewrite (disconnect_connected w Hc). cbn [snd trace].
    rewrite !count_app. cbn. lia.
  - rewrite (disconnect_not_connected w Hc). reflexivity.
Qed.

Example disconnect_twice :
  snd (disconnect (snd (disconnect connected_world))) = snd (disconnect connected_world) /\
  count is_room_disconnect
        (trace (snd (disconnect (snd (disconnect connected_world))))) = 1 /\
  disconnect (new_world "demo") = (Ok tt, new_world "demo").
Proof. repeat split. Qed.

(** ** The claims about the control loop *)

(** C9.  On a connected session, with [line] the next line of input: the
    loop leaves (it returns normally right after the prompt, without a
    playback and without reading further) if and only if
    [line.strip().lower()] is ["q"]; any other line, empty or not, starts
    exactly one [play_file] of the configured file, and the loop goes on to
    the next prompt with what that call left.  Between this prompt and the
    next there is exactly one playback and no other prompt. *)
Theorem main_loop_line
        (file line : string) (e : PlayEnv)
        (rest : list (string * PlayEnv)) (w : World) :
  is_connected (self w) = true ->
  let w0 := snd (emit Prompt w) in
  (main_loop file ((line, e) :: rest) w = (Ok tt, w0)
   <-> lower (strip line) = "q"%string) /\
  (lower (strip line) <> "q"%string ->
   main_loop file ((line, e) :: rest) w =
     match play_file e file w0 with
     | (Ok _, w1) => main_loop file rest w1
     | (Raise err, w1) => (Raise err, w1)
     end /\
   exists t,
     trace (snd (play_file e file w0))
       = trace w ++ [Prompt; Log Info (Playing file)] ++ t /\
     count is_playing t = 0 /\ count is_prompt t = 0).
Proof.
  intros Hc. cbv zeta.
  assert (Hc0 : is_connected (self (snd (emit Prompt w))) = true) by exact Hc.
  destruct (play_file_logs_playing e file (snd (emit Prompt w)) Hc0)
    as (t & Ht & Hplay & Hprompt).
  assert (Hnot : lower (strip line) <> "q"%string -> is_quit line = false).
  { intros Hne. destruct (is_quit line) eqn:Hq; [ | reflexivity ].
    apply is_quit_spec in Hq. contradiction. }
  split; [ split | ].
  - intros Hquit.
    destruct (is_quit line) eqn:Hq; [ apply is_quit_spec, Hq | exfalso ].
    rewrite (main_loop_play file line e rest w Hq) in Hquit.
    destruct (play_file e file (snd (emit Prompt w))) as [[[]|err] w1];
      cbn [snd] in Ht; [ | discriminate Hquit ].
    destruct (main_loop_appends file rest w1) as [t2 Ht2].
    rewrite Hquit in Ht2. cbn [snd] in Ht2. rewrite Ht in Ht2.
    apply (f_equal (@length Event)) in Ht2.
    rewrite !length_app in Ht2. cbn [length] in Ht2. lia.
  - intros Hq. apply main_loop_quit, is_quit_spec, Hq.
  - intros Hne. split; [ apply main_loop_play, Hnot, Hne | ].
    exists t. rewrite Ht. cbn [emit snd trace].
    rewrite <- !app_assoc. auto.
Qed.

Lemma main_loop_line_witness :
  let w0 := snd (emit Prompt connected_world) in
  (main_loop "a.mp3" ((" Q "%string, decoder (pcm 1920) 0) :: []) connected_world
     = (Ok tt, w0)
   <-> lower (strip " Q ") = "q"%string) /\
  (lower (strip " Q ") <> "q"%string ->
   main_loop "a.mp3" ((" Q "%string, decoder (pcm 1920) 0) :: []) connected_world =
     match play_file (decoder (pcm 1920) 0) "a.mp3" w0 with
     | (Ok _, w1) => main_loop "a.mp3" [] w1
     | (Raise err, w1) => (Raise err, w1)
     end /\
   exists t,
     trace (snd (play_file (decoder (pcm 1920) 0) "a.mp3" w0))
       = trace connected_world ++ [Prompt; Log Info (Playing "a.mp3")] ++ t /\
     count is_playing t = 0 /\ count is_prompt t = 0).
Proof.
  apply (main_loop_line "a.mp3" " Q " (decoder (pcm 1920) 0) [] connected_world).
  reflexivity.
Defined.

(** The quit test on a few lines. *)
Example is_quit_examples :
  is_quit "q" = true /\ is_quit " Q " = true /\
  is_quit (String "009"%char "q") = true /\
  is_quit "" = false /\ is_quit "quit" = false /\ is_quit "q q" = false /\
  is_quit "play" = false.
Proof. repeat split. Qed.

(** C10.  When the line typed at the room prompt is empty after [strip],
    [main] raises before [AudioStreamer(room_name)]: no streamer exists, so
    nothing was connected or spawned, and the interpreter exits with a
    non-zero status. *)
Theorem main_rejects_empty_room_name (m : MainEnv) (line : string) :
  input_is_file m = true ->
  room_input m = Some line ->
  strip line = EmptyString ->
  main m = (Raise EmptyRoomName, None) /\
  exit_status (fst (main m)) <> 0%Z.
Proof.
  intros Hf Hr Hs. unfold main. rewrite Hf, Hr, Hs. cbn. split; [ reflexivity | lia ].
Qed.

Lemma main_rejects_empty_room_name_witness :
  main blank_room_run = (Raise EmptyRoomName, None) /\
  exit_status (fst (main blank_room_run)) <> 0%Z.
Proof.
  apply (main_rejects_empty_room_name blank_room_run (String "009"%char " "));
    reflexivity.
Defined.

(** C3, amended.  An error raised by [play_file] inside the loop is not
    caught: it leaves the loop at once -- the lines still waiting are not
    read, no further prompt is shown, nothing is logged about it -- the
    [finally] clause disconnects the session, and the error leaves [main],
    which ends the process with a non-zero status. *)
Theorem play_file_error_ends_main_loop
        (file line : string) (e : PlayEnv)
        (rest : list (string * PlayEnv)) (w w1 : World) (err : exn) :
  lower (strip line) <> "q"%string ->
  play_file e file (snd (emit Prompt w)) = (Raise err, w1) ->
  main_loop file ((line, e) :: rest) w = (Raise err, w1) /\
  try_finally (main_loop file ((line, e) :: rest)) disconnect w
    = (Raise err, snd (disconnect w1)) /\
  count is_prompt (trace (snd (disconnect w1))) = S (count is_prompt (trace w)) /\
  is_connected (self (snd (disconnect w1))) = false /\
  exit_status (@Raise unit err) <> 0%Z.
Proof.
  intros Hne Hplay.
  assert (Hq : is_quit line = false).
  { destruct (is_quit line) eqn:Hq; [ | reflexivity ].
    apply is_quit_spec in Hq. contradiction. }
  assert (Hloop : main_loop file ((line, e) :: rest) w = (Raise err, w1)).
  { rewrite (main_loop_play file line e rest w Hq), Hplay. reflexivity. }
  split; [ exact Hloop | ].
  split; [ rewrite try_finally_disconnect, Hloop; reflexivity | ].
  split; [ | split ].
  - rewrite disconnect_count by reflexivity.
    pose proof (play_file_count e file is_prompt (snd (emit Prompt w))) as Hc.
    rewrite Hplay in Hc. cbn [snd] in Hc.
    rewrite Hc by (intros ev Hev; destruct ev; (discriminate Hev || reflexivity)).
    cbn [emit snd trace]. rewrite count_app. cbn. lia.
  - pose proof (disconnect_is_off w1) as Hoff. exact Hoff.
  - cbn. lia.
Qed.

Lemma play_file_error_ends_main_loop_witness :
  let e := decoder_sink (pcm 1920) Reject in
  let rest := [(EmptyString, decoder (pcm 1920) 0)] in
  let w1 := snd (play_file e "a.mp3" (snd (emit Prompt connected_world))) in
  main_loop "a.mp3" ((EmptyString, e) :: rest) connected_world
    = (Raise SinkRejected, w1) /\
  try_finally (main_loop "a.mp3" ((EmptyString, e) :: rest)) disconnect connected_world
    = (Raise SinkRejected, snd (disconnect w1)) /\
  count is_prompt (trace (snd (disconnect w1)))
    = S (count is_prompt (trace connected_world)) /\
  is_connected (self (snd (disconnect w1))) = false /\
  exit_status (@Raise unit SinkRejected) <> 0%Z.
Proof.
  cbv zeta.
  apply (play_file_error_ends_main_loop "a.mp3" EmptyString
           (decoder_sink (pcm 1920) Reject)
           [(EmptyString, decoder (pcm 1920) 0)] connected_world
           (snd (play_file (decoder_sink (pcm 1920) Reject) "a.mp3"
                           (snd (emit Prompt connected_world))))
           SinkRejected).
  - vm_compute. discriminate.
  - vm_compute. reflexivity.
Defined.

(** C3 as stated fails.  Two lines of input are waiting and the audio source
    rejects the first frame of the first playback: [main] ends with that
    error and a non-zero status; the loop has prompted once and played once,
    the second line was never read, and the trace holds no line about the
    error -- it ends with the clean-up of the decoder and the disconnect. *)
Lemma play_file_error_is_fatal :
  fst (main failing_run) = Raise SinkRejected /\
  exit_status (fst (main failing_run)) = 1%Z /\
  List.length (commands failing_run) = 2 /\
  match snd (main failing_run) with
  | Some wf =>
      count is_prompt (trace wf) = 1 /\
      count is_playing (trace wf) = 1 /\
      is_connected (self wf) = false /\
      trace wf =
        [Log Info (ConnectingToRoom "demo"); RoomConnect "wss://room.example" "demo";
         Log Info ConnectedToRoom; CreateTrack 0; PublishTrack 0;
         Log Info (PublishedTrack 0);
         Prompt; Log Info (Playing "a.mp3"); Probe "a.mp3";
         Log Info (AudioDuration 1000); Spawn 0 "a.mp3";
         Terminate 0; Wait 0; Log Info FinishedPlaying;
         RoomDisconnect; Log Info DisconnectedFromRoom]
  | None => False
  end.
Proof. vm_compute. repeat split. Qed.

(* ===================================================================== *)
(** * Further properties of the streamer                                  *)
(* ===================================================================== *)

(** ** How [connect] ends *)

(** The outcome of [connect] on a session that is not connected, case by
    case. *)
Lemma connect_cases (ce : ConnEnv) (w : World) :
  is_connected (self w) = false ->
  fst (connect ce w) =
    (if negb (credentials_ok ce) then Raise MissingCredentials
     else if negb (room_accepts ce) then Raise ConnectFailed
     else if negb (publish_accepts ce) then Raise PublishFailed
     else Ok tt) /\
  is_connected (self (snd (connect ce w))) = credentials_ok ce && room_accepts ce /\
  is_publishing (self (snd (connect ce w))) =
    is_publishing (self w) || credentials_ok ce && room_accepts ce && publish_accepts ce /\
  count is_room_connect (trace (snd (connect ce w))) =
    count is_room_connect (trace w) + (if credentials_ok ce then 1 else 0) /\
  procs (snd (connect ce w)) = procs w /\
  audio_source (self (snd (connect ce w))) = audio_source (self w).
Proof.
  intros Hc. unfold connect, bind, get_self, credentials_ok. cbv zeta. rewrite Hc.
  destruct (forallb truthy _); cbn [negb].
  - unfold room_connect, publish_track, bind, get_self, emit, modify_self,
      create_audio_track, log, emit.
    destruct (room_accepts ce), (publish_accepts ce); cbn;
      rewrite ?Hc, ?orb_false_r, ?orb_true_r;
      repeat split; unfold count; repeat rewrite filter_app;
      repeat rewrite length_app; cbn; lia.
  - cbn. rewrite Hc, orb_false_r. repeat split. lia.
Qed.


(** X1.  On a session that is not connected [connect] checks the three
    credentials first, then connects, then publishes, and raises at the first
    of these that fails.  The session counts as connected exactly when the
    credentials are complete and the room let it in, and a connection is
    attempted exactly when the credentials are complete. *)
Theorem connect_outcome (ce : ConnEnv) (w : World) :
  is_connected (self w) = false ->
  fst (connect ce w) =
    (if negb (credentials_ok ce) then Raise MissingCredentials
     else if negb (room_accepts ce) then Raise ConnectFailed
     else if negb (publish_accepts ce) then Raise PublishFailed
     else Ok tt) /\
  is_connected (self (snd (connect ce w))) = credentials_ok ce && room_accepts ce /\
  is_publishing (self (snd (connect ce w))) =
    is_publishing (self w) || credentials_ok ce && room_accepts ce && publish_accepts ce /\
  count is_room_connect (trace (snd (connect ce w))) =
    count is_room_connect (trace w) + (if credentials_ok ce then 1 else 0) /\
  procs (snd (connect ce w)) = procs w /\
  audio_source (self (snd (connect ce w))) = audio_source (self w).
Proof.
  intros Hc.
  destruct (connect_cases ce w Hc) as (Hfst & Hconn & Hpub & Hcount & Hprocs & Hsrc).
  split; [ exact Hfst | ]. split; [ exact Hconn | ]. split; [ exact Hpub | ].
  split; [ exact Hcount | ]. split; [ exact Hprocs | exact Hsrc ].
Qed.

Lemma connect_outcome_witness :
  fst (connect conn_no_publish (new_world "demo")) =
    (if negb (credentials_ok conn_no_publish) then Raise MissingCredentials
     else if negb (room_accepts conn_no_publish) then Raise ConnectFailed
     else if negb (publish_accepts conn_no_publish) then Raise PublishFailed
     else Ok tt) /\
  is_connected (self (snd (connect conn_no_publish (new_world "demo"))))
    = credentials_ok conn_no_publish && room_accepts conn_no_publish /\
  is_publishing (self (snd (connect conn_no_publish (new_world "demo")))) =
    is_publishing (self (new_world "demo"))
    || credentials_ok conn_no_publish && room_accepts conn_no_publish
       && publish_accepts conn_no_publish /\
  count is_room_connect (trace (snd (connect conn_no_publish (new_world "demo")))) =
    count is_room_connect (trace (new_world "demo"))
    + (if credentials_ok conn_no_publish then 1 else 0) /\
  procs (snd (connect conn_no_publish (new_world "demo"))) = procs (new_world "demo") /\
  audio_source (self (snd (connect conn_no_publish (new_world "demo"))))
    = audio_source (self (new_world "demo")).
Proof.
  apply (connect_outcome conn_no_publish (new_world "demo")). reflexivity.
Defined.

(** Calls of [connect] and [play_file] on a connected session leave the
    publishing flag as it is. *)
Lemma run_calls_keep_publishing (calls : list Call) :
  forall w : World,
    is_connected (self w) = true ->
    forallb (fun c => negb (is_disconnect_call c)) calls = true ->
    is_publishing (self (run_calls calls w)) = is_publishing (self w).
Proof.
  induction calls as [|c calls IH]; intros w Hc Hcalls; [ reflexivity | ].
  cbn [forallb] in Hcalls. apply andb_prop in Hcalls as [Hhead Htail].
  destruct (run_calls_connected [c] w Hc) as (Hc1 & _).
  { cbn [forallb]. rewrite Hhead. reflexivity. }
  unfold run_calls in *. cbn [fold_left] in *.
  rewrite (IH (run_call c w) Hc1 Htail).
  destruct c as [ce|pe f|]; cbn [run_call].
  - rewrite (connect_connected ce w Hc). reflexivity.
  - destruct (play_file_effect pe f w) as ((_ & _ & _ & Hp & _) & _). exact Hp.
  - discriminate Hhead.
Qed.

(** X2.  On a streamer that is not connected and whose [is_publishing] flag
    is false (as on a new streamer): when the credentials are complete, the
    room accepts the connection and then refuses the publication, [connect]
    raises with [is_connected] already true and [is_publishing] false.  After
    that, following any further calls of [connect] and [play_file] (no
    [disconnect] among them), every [connect], with whatever environment, is
    a no-op: it returns normally, makes no connection attempt, publishes
    nothing, and [is_publishing] stays false. *)
Theorem failed_publication_sticks
        (ce ce' : ConnEnv) (w : World) (calls : list Call) :
  is_connected (self w) = false ->
  is_publishing (self w) = false ->
  credentials_ok ce = true -> room_accepts ce = true -> publish_accepts ce = false ->
  forallb (fun c => negb (is_disconnect_call c)) calls = true ->
  let w1 := snd (connect ce w) in
  let w2 := run_calls calls w1 in
  fst (connect ce w) = Raise PublishFailed /\
  is_connected (self w1) = true /\
  is_publishing (self w1) = false /\
  fst (connect ce' w2) = Ok tt /\
  is_publishing (self (snd (connect ce' w2))) = false /\
  count is_publish_track (trace (snd (connect ce' w2))) = count is_publish_track (trace w1) /\
  count is_room_connect (trace (snd (connect ce' w2))) = count is_room_connect (trace w1).
Proof.
  intros Hc Hp Hcred Hroom Hpub Hcalls. cbv zeta.
  destruct (connect_cases ce w Hc) as (Hfst & Hconn & Hpubl & _).
  rewrite Hcred, Hroom, Hpub in Hfst.
  rewrite Hcred, Hroom in Hconn.
  rewrite Hcred, Hroom, Hpub, Hp in Hpubl.
  cbn [negb andb orb] in Hfst, Hconn, Hpubl.
  destruct (run_calls_connected calls (snd (connect ce w)) Hconn Hcalls)
    as (Hc2 & _ & Hcount).
  pose proof (run_calls_keep_publishing calls (snd (connect ce w)) Hconn Hcalls) as Hp2.
  rewrite (connect_connected ce' _ Hc2). cbn [fst snd self trace].
  rewrite Hp2, Hpubl.
  repeat split; try assumption.
  - rewrite count_app, Hcount
      by (intros ev Hev; destruct ev; (discriminate Hev || reflexivity)).
    cbn. lia.
  - rewrite count_app, Hcount
      by (intros ev Hev; destruct ev; (discriminate Hev || reflexivity)).
    cbn. lia.
Qed.

Lemma failed_publication_sticks_witness :
  let w1 := snd (connect conn_no_publish (new_world "demo")) in
  let w2 := run_calls [CallConnect demo_conn;
                       CallPlayFile (decoder (pcm 1400) 0) "a.mp3";
                       CallConnect demo_conn] w1 in
  fst (connect conn_no_publish (new_world "demo")) = Raise PublishFailed /\
  is_connected (self w1) = true /\
  is_publishing (self w1) = false /\
  fst (connect demo_conn w2) = Ok tt /\
  is_publishing (self (snd (connect demo_conn w2))) = false /\
  count is_publish_track (trace (snd (connect demo_conn w2))) = count is_publish_track (trace w1) /\
  count is_room_connect (trace (snd (connect demo_conn w2))) = count is_room_connect (trace w1).
Proof.
  apply (failed_publication_sticks conn_no_publish demo_conn (new_world "demo")
           [CallConnect demo_conn;
            CallPlayFile (decoder (pcm 1400) 0) "a.mp3";
            CallConnect demo_conn]);
    reflexivity.
Defined.

(** ** More on the frame loop *)

Section FrameLoopMore.

Variable e : PlayEnv.


Lemma even_skipn_frame (s : bytes) :
  Nat.even (length (skipn bytes_per_frame s)) =
  if bytes_per_frame <=? length s then Nat.even (length s) else true.
Proof.
  rewrite length_skipn.
  destruct (Nat.leb_spec bytes_per_frame (length s)) as [Hfull|Hshort].
  - rewrite Nat.even_sub by exact Hfull.
    change (Nat.even bytes_per_frame) with true.
    destruct (Nat.even (length s)); reflexivity.
  - replace (length s - bytes_per_frame) with 0 by lia. reflexivity.
Qed.

Lemma ceil_div_bounds (L : nat) :
  L <= ceil_div L bytes_per_frame * bytes_per_frame /\
  ceil_div L bytes_per_frame * bytes_per_frame < L + bytes_per_frame.
Proof.
  assert (Hs : exists s : bytes, length s = L) by (exists (repeat x00 L); apply repeat_length).
  destruct Hs as [s <-].
  pose proof (ceil_div_spec s) as Hceil. cbv zeta in Hceil. rewrite Hceil.
  rewrite bytes_per_frame_eq.
  pose proof (Nat.div_mod_eq (length s) 960) as Hdm.
  pose proof (Nat.mod_upper_bound (length s) 960 ltac:(lia)) as Hr.
  destruct (Nat.eqb_spec (length s mod 960) 0); lia.
Qed.

Lemma ceil_div_pos (L : nat) : 0 < ceil_div L bytes_per_frame -> 0 < L.
Proof.
  intros H. destruct L; [ | lia ]. cbv in H. lia.
Qed.


Lemma loop_body_odd (k : nat) (data : bytes) (w : World) :
  Nat.even (length data) = false ->
  loop_body e k data w = (Raise BufferSizeError, w).
Proof.
  intros Hodd. unfold loop_body, bind. rewrite (make_frame_odd data w Hodd). reflexivity.
Qed.


(** The loop on a stream of odd length: every full stretch is delivered,
    then the conversion refuses what is left. *)
Lemma frame_loop_odd :
  (forall k, sink e k = Accept) ->
  forall (n : nat) (s : bytes) (j : nat) (w : World),
    length s < n -> Nat.even (length s) = false ->
    frame_loop e j (mkPipe s EndOfFile) w =
    (Raise BufferSizeError,
     push_frames (firstn (length s / bytes_per_frame) (chunker_frames s)) w).
Proof.
  intros Hsink. induction n as [|n IH]; intros s j w Hn Hodd; [ lia | ].
  assert (Hne : s <> []) by (intros ->; discriminate Hodd).
  assert (Hdata : firstn bytes_per_frame s <> []).
  { destruct s; [ contradiction | rewrite bytes_per_frame_eq; discriminate ]. }
  rewrite (frame_loop_step e j _ _ w _ (pipe_read_eof s) Hdata).
  destruct (Nat.le_gt_cases bytes_per_frame (length s)) as [Hfull|Hshort].
  - assert (Hev1 : Nat.even (length (firstn bytes_per_frame s)) = true).
    { rewrite length_firstn, Nat.min_l by exact Hfull. reflexivity. }
    rewrite (loop_body_accept e j _ w (Hsink j) Hev1)
      by (rewrite length_firstn; lia).
    rewrite (IH (skipn bytes_per_frame s) (S j)).
    + rewrite length_skipn.
      assert (Hdiv : length s / bytes_per_frame
                     = S ((length s - bytes_per_frame) / bytes_per_frame)).
      { rewrite bytes_per_frame_eq in *.
        replace (length s) with ((length s - 960) + 1 * 960) at 1 by lia.
        rewrite Nat.div_add by lia. lia. }
      rewrite Hdiv, (chunker_frames_cons s Hne). cbn [firstn].
      change (frame_of (firstn bytes_per_frame s)
                :: firstn ((length s - bytes_per_frame) / bytes_per_frame)
                          (chunker_frames (skipn bytes_per_frame s)))
        with ([frame_of (firstn bytes_per_frame s)]
                ++ firstn ((length s - bytes_per_frame) / bytes_per_frame)
                          (chunker_frames (skipn bytes_per_frame s))).
      rewrite push_frames_app. reflexivity.
    + rewrite length_skipn. rewrite bytes_per_frame_eq in *. lia.
    + rewrite even_skipn_frame.
      destruct (Nat.leb_spec bytes_per_frame (length s)); [ exact Hodd | lia ].
  - rewrite firstn_all2 by lia.
    rewrite (loop_body_odd j s w Hodd).
    rewrite Nat.div_small by exact Hshort. cbn [firstn].
    rewrite push_frames_nil. reflexivity.
Qed.

(** The frames of a stream, laid end to end, are the stream followed by the
    silence that fills the last frame. *)
Lemma chunker_frames_concat (n : nat) :
  forall s : bytes,
    length s < n ->
    concat (map frame_data (chunker_frames s)) =
    s ++ repeat x00 (ceil_div (length s) bytes_per_frame * bytes_per_frame - length s).
Proof.
  induction n as [|n IH]; intros s Hn; [ lia | ].
  destruct s as [|b s'] eqn:Hs.
  - reflexivity.
  - rewrite <- Hs in *. assert (Hne : s <> []) by (rewrite Hs; discriminate).
    assert (Hpos : 0 < length s) by (rewrite Hs; cbn [length]; lia).
    rewrite (chunker_frames_cons s Hne). cbn [map concat frame_of frame_data].
    rewrite IH by (rewrite length_skipn; rewrite bytes_per_frame_eq; lia).
    unfold pad_silence. rewrite length_skipn, length_firstn.
    rewrite (ceil_div_succ (length s) Hpos).
    pose proof (ceil_div_bounds (length s - bytes_per_frame)) as [Hlo Hhi].
    destruct (Nat.le_gt_cases bytes_per_frame (length s)) as [Hfull|Hshort].
    + rewrite Nat.min_l by exact Hfull. rewrite Nat.sub_diag. cbn [repeat].
      rewrite app_nil_r, app_assoc, firstn_skipn. f_equal. f_equal.
      rewrite bytes_per_frame_eq in *. lia.
    + rewrite Nat.min_r by lia.
      replace (length s - bytes_per_frame) with 0 by lia.
      rewrite firstn_all2, skipn_all2 by lia.
      change (ceil_div 0 bytes_per_frame) with 0.
      rewrite Nat.mul_0_l, Nat.mul_1_l. cbn [Nat.sub repeat app].
      rewrite app_nil_r. reflexivity.
Qed.

End FrameLoopMore.

(** ** More on [play_file] *)

Lemma play_file_from_loop (e : PlayEnv) (file_path : string) (w : World)
      (r : result unit) (fs : list AudioFrame) :
  is_connected (self w) = true -> ffmpeg_starts e = true ->
  frame_loop e 0 (process_stdout e) (started e file_path w)
    = (r, push_frames fs (started e file_path w)) ->
  fst (play_file e file_path w) = r /\
  audio_source (self (snd (play_file e file_path w))) = audio_source (self w) ++ fs /\
  procs (snd (play_file e file_path w)) = procs w ++ [Reaped (collected_status e)].
Proof.
  intros Hc Hs Hloop. rewrite (play_file_started e file_path w Hc Hs), Hloop.
  cbn [fst snd]. split; [ reflexivity | ]. split; [ reflexivity | ].
  unfold finished, push_frames, started. cbn [procs].
  rewrite !update_proc_last. unfold collected_status. cbn [terminated waited].
  reflexivity.
Qed.

(** What [play_file] does to the process table, in all cases. *)
Lemma play_file_process_table (e : PlayEnv) (file_path : string) (w : World) :
  procs (snd (play_file e file_path w)) =
    procs w ++ (if is_connected (self w) && ffmpeg_starts e
                then [Reaped (collected_status e)] else []) /\
  count is_spawn (trace (snd (play_file e file_path w))) =
    count is_spawn (trace w) + (if is_connected (self w) && ffmpeg_starts e then 1 else 0).
Proof.
  destruct (is_connected (self w)) eqn:Hc; cbn [andb].
  - destruct (ffmpeg_starts e) eqn:Hs.
    + rewrite (play_file_started e file_path w Hc Hs). cbn [snd].
      destruct (frame_loop_session e (S (length (buffered (process_stdout e)))) 0
                  (process_stdout e) (started e file_path w) ltac:(lia))
        as (Hp & Ht & _).
      unfold finished. cbn [procs trace]. rewrite Hp, Ht.
      unfold started. cbn [procs trace]. rewrite !update_proc_last.
      split.
      * unfold collected_status. cbn [terminated waited]. reflexivity.
      * rewrite !count_app. unfold probe_log. destruct (probe_result e); cbn; lia.
    + rewrite (play_file_not_started e file_path w Hc Hs). cbn [snd procs trace].
      rewrite app_nil_r. split; [ reflexivity | ].
      rewrite !count_app. unfold probe_log. destruct (probe_result e); cbn; lia.
  - rewrite (play_file_not_connected e file_path w Hc). cbn [snd].
    rewrite app_nil_r. split; [ reflexivity | lia ].
Qed.



(** X4.  On a connected session, when the decoder starts, writes a stream
    of odd length [L] (a last sample cut in half) and closes its output, and
    the audio source accepts every frame: [play_file] delivers the [L / 960]
    full frames that precede the odd rest, each with its 960 bytes of the
    stream, then raises the [ValueError] of [np.frombuffer]; the rest of the
    stream is dropped and the decoder has been terminated and waited for. *)
Theorem play_file_odd_stream
        (e : PlayEnv) (file_path : string) (w : World) :
  is_connected (self w) = true ->
  ffmpeg_starts e = true ->
  dec_stdout_end e = EndOfFile ->
  (forall k, sink e k = Accept) ->
  Nat.even (length (dec_stdout e)) = false ->
  fst (play_file e file_path w) = Raise BufferSizeError /\
  audio_source (self (snd (play_file e file_path w))) =
    audio_source (self w)
    ++ firstn (length (dec_stdout e) / bytes_per_frame) (chunker_frames (dec_stdout e)) /\
  (forall i, i < length (dec_stdout e) / bytes_per_frame ->
     nth_error (firstn (length (dec_stdout e) / bytes_per_frame)
                       (chunker_frames (dec_stdout e))) i =
     Some (mkAudioFrame
             (firstn bytes_per_frame (skipn (i * bytes_per_frame) (dec_stdout e)))
             24000 1 frame_size)) /\
  procs (snd (play_file e file_path w)) = procs w ++ [Reaped (collected_status e)].
Proof.
  intros Hc Hs Hend Hsink Hodd.
  assert (Hloop : frame_loop e 0 (process_stdout e) (started e file_path w) =
                  (Raise BufferSizeError,
                   push_frames (firstn (length (dec_stdout e) / bytes_per_frame)
                                       (chunker_frames (dec_stdout e)))
                               (started e file_path w))).
  { unfold process_stdout. rewrite Hend.
    apply (frame_loop_odd e Hsink (S (length (dec_stdout e)))); [ lia | exact Hodd ]. }
  destruct (play_file_from_loop e file_path w _ _ Hc Hs Hloop) as (H1 & H2 & H3).
  split; [ exact H1 | ]. split; [ exact H2 | ]. split; [ | exact H3 ].
  intros i Hi. rewrite nth_error_firstn.
  destruct (Nat.ltb_spec i (length (dec_stdout e) / bytes_per_frame)); [ | lia ].
  destruct (chunker_frames_contract (dec_stdout e)) as (_ & Hfull & _).
  apply Hfull. exact Hi.
Qed.

Lemma play_file_odd_stream_witness :
  fst (play_file (decoder (pcm 1921) 0) "a.mp3" connected_world) = Raise BufferSizeError /\
  audio_source (self (snd (play_file (decoder (pcm 1921) 0) "a.mp3" connected_world))) =
    audio_source (self connected_world)
    ++ firstn (length (dec_stdout (decoder (pcm 1921) 0)) / bytes_per_frame)
              (chunker_frames (dec_stdout (decoder (pcm 1921) 0))) /\
  (forall i, i < length (dec_stdout (decoder (pcm 1921) 0)) / bytes_per_frame ->
     nth_error (firstn (length (dec_stdout (decoder (pcm 1921) 0)) / bytes_per_frame)
                       (chunker_frames (dec_stdout (decoder (pcm 1921) 0)))) i =
     Some (mkAudioFrame
             (firstn bytes_per_frame
                     (skipn (i * bytes_per_frame) (dec_stdout (decoder (pcm 1921) 0))))
             24000 1 frame_size)) /\
  procs (snd (play_file (decoder (pcm 1921) 0) "a.mp3" connected_world))
    = procs connected_world ++ [Reaped (collected_status (decoder (pcm 1921) 0))].
Proof.
  apply (play_file_odd_stream (decoder (pcm 1921) 0) "a.mp3" connected_world);
    [ reflexivity | reflexivity | reflexivity | intros k; reflexivity | reflexivity ].
Defined.

(** X5.  A sound playback passes the audio through untouched: the data of
    the frames it pushes, laid end to end, is the decoder's output byte for
    byte, followed by less than one frame of zeros. *)
Theorem play_file_preserves_audio
        (e : PlayEnv) (file_path : string) (w : World) :
  is_connected (self w) = true ->
  sound_playback e ->
  exists frames pad,
    audio_source (self (snd (play_file e file_path w))) = audio_source (self w) ++ frames /\
    concat (map frame_data frames) = dec_stdout e ++ repeat x00 pad /\
    firstn (length (dec_stdout e)) (concat (map frame_data frames)) = dec_stdout e /\
    pad < bytes_per_frame.
Proof.
  intros Hc (Hs & Hend & Hsink & Hev).
  rewrite (play_file_delivers e file_path w Hc Hs Hend Hsink Hev).
  exists (chunker_frames (dec_stdout e)).
  exists (ceil_div (length (dec_stdout e)) bytes_per_frame * bytes_per_frame
          - length (dec_stdout e)).
  pose proof (chunker_frames_concat (S (length (dec_stdout e))) (dec_stdout e)
                                    ltac:(lia)) as Hcat.
  split; [ reflexivity | ]. split; [ exact Hcat | ]. split.
  - rewrite Hcat. rewrite firstn_app, Nat.sub_diag, firstn_all. cbn [firstn].
    apply app_nil_r.
  - pose proof (ceil_div_bounds (length (dec_stdout e))). lia.
Qed.

Lemma play_file_preserves_audio_witness :
  exists frames pad,
    audio_source (self (snd (play_file (decoder (pcm 1400) 0) "a.mp3" connected_world)))
      = audio_source (self connected_world) ++ frames /\
    concat (map frame_data frames) = dec_stdout (decoder (pcm 1400) 0) ++ repeat x00 pad /\
    firstn (length (dec_stdout (decoder (pcm 1400) 0))) (concat (map frame_data frames))
      = dec_stdout (decoder (pcm 1400) 0) /\
    pad < bytes_per_frame.
Proof.
  apply (play_file_preserves_audio (decoder (pcm 1400) 0) "a.mp3" connected_world).
  - reflexivity.
  - repeat split.
Defined.

(** A sound playback on a connected session, in full. *)
Lemma play_file_sound (e : PlayEnv) (file_path : string) (w : World) :
  is_connected (self w) = true ->
  sound_playback e ->
  fst (play_file e file_path w) = Ok tt /\
  audio_source (self (snd (play_file e file_path w))) =
    audio_source (self w) ++ chunker_frames (dec_stdout e) /\
  procs (snd (play_file e file_path w)) = procs w ++ [Reaped (collected_status e)] /\
  is_connected (self (snd (play_file e file_path w))) = true.
Proof.
  intros Hc (Hs & Hend & Hsink & Hev).
  destruct (play_file_effect e file_path w) as ((_ & _ & Hi & _) & _).
  rewrite Hi. split; [ | split; [ | split; [ | exact Hc ] ] ];
    apply (play_file_from_loop e file_path w (Ok tt) (chunker_frames (dec_stdout e)) Hc Hs);
    unfold process_stdout; rewrite Hend;
    apply (frame_loop_frames e Hsink (S (length (dec_stdout e)))); (lia || exact Hev).
Qed.

(** X6.  Playbacks follow one another on the same connection: two sound
    playbacks in a row both return normally, the audio source holds the
    frames of the first followed by the frames of the second, and each
    playback has had a decoder of its own, both collected. *)
Theorem play_file_twice
        (e1 e2 : PlayEnv) (f1 f2 : string) (w : World) :
  is_connected (self w) = true ->
  sound_playback e1 -> sound_playback e2 ->
  let w1 := snd (play_file e1 f1 w) in
  let w2 := snd (play_file e2 f2 w1) in
  fst (play_file e1 f1 w) = Ok tt /\
  fst (play_file e2 f2 w1) = Ok tt /\
  audio_source (self w2) =
    audio_source (self w) ++ chunker_frames (dec_stdout e1) ++ chunker_frames (dec_stdout e2) /\
  procs w2 = procs w ++ [Reaped (collected_status e1); Reaped (collected_status e2)] /\
  is_connected (self w2) = true.
Proof.
  intros Hc Hsound1 Hsound2. cbv zeta.
  destruct (play_file_sound e1 f1 w Hc Hsound1) as (Hr1 & Ha1 & Hp1 & Hc1).
  destruct (play_file_sound e2 f2 _ Hc1 Hsound2) as (Hr2 & Ha2 & Hp2 & Hc2).
  rewrite Hr1, Hr2, Ha2, Ha1, Hp2, Hp1, Hc2, <- !app_assoc.
  repeat split.
Qed.

Lemma play_file_twice_witness :
  let e := decoder (pcm 1400) 0 in
  let w1 := snd (play_file e "a.mp3" connected_world) in
  let w2 := snd (play_file e "a.mp3" w1) in
  fst (play_file e "a.mp3" connected_world) = Ok tt /\
  fst (play_file e "a.mp3" w1) = Ok tt /\
  audio_source (self w2) =
    audio_source (self connected_world)
    ++ chunker_frames (dec_stdout e) ++ chunker_frames (dec_stdout e) /\
  procs w2 = procs connected_world
             ++ [Reaped (collected_status e); Reaped (collected_status e)] /\
  is_connected (self w2) = true.
Proof.
  cbv zeta.
  apply (play_file_twice (decoder (pcm 1400) 0) (decoder (pcm 1400) 0)
                         "a.mp3" "a.mp3" connected_world).
  - reflexivity.
  - repeat split.
  - repeat split.
Defined.

(** X7.  A playback that failed does not spoil the next one: after any
    [play_file] on a connected session, however it ended, a sound playback
    returns normally and adds all of its frames behind those already
    delivered. *)
Theorem play_file_after_failure
        (e1 e2 : PlayEnv) (f1 f2 : string) (w : World) :
  is_connected (self w) = true ->
  sound_playback e2 ->
  let w1 := snd (play_file e1 f1 w) in
  fst (play_file e2 f2 w1) = Ok tt /\
  audio_source (self (snd (play_file e2 f2 w1))) =
    audio_source (self w1) ++ chunker_frames (dec_stdout e2).
Proof.
  intros Hc (Hs2 & Hend2 & Hsink2 & Hev2). cbv zeta.
  destruct (play_file_effect e1 f1 w) as ((_ & _ & Hi & _) & _).
  assert (Hc1 : is_connected (self (snd (play_file e1 f1 w))) = true)
    by (rewrite Hi; exact Hc).
  rewrite (play_file_delivers e2 f2 _ Hc1 Hs2 Hend2 Hsink2 Hev2).
  split; reflexivity.
Qed.

Lemma play_file_after_failure_witness :
  let w1 := snd (play_file (decoder (pcm 1921) 0) "bad.mp3" connected_world) in
  fst (play_file (decoder (pcm 1400) 0) "a.mp3" w1) = Ok tt /\
  audio_source (self (snd (play_file (decoder (pcm 1400) 0) "a.mp3" w1))) =
    audio_source (self w1) ++ chunker_frames (dec_stdout (decoder (pcm 1400) 0)).
Proof.
  apply (play_file_after_failure (decoder (pcm 1921) 0) (decoder (pcm 1400) 0)
                                 "bad.mp3" "a.mp3" connected_world).
  - reflexivity.
  - repeat split.
Defined.

(** The frame loop sees of its environment the audio source only, and of
    the world the streamer only. *)
Lemma loop_body_env_trace (e1 e2 : PlayEnv) (t : list Event)
      (k : nat) (data : bytes) (w : World) :
  sink e1 k = sink e2 k ->
  loop_body e2 k data (with_trace t w) =
  (fst (loop_body e1 k data w), with_trace t (snd (loop_body e1 k data w))).
Proof.
  intros Hk. unfold loop_body, bind, make_frame.
  destruct (frombuffer data) as [a|]; [ | reflexivity ].
  unfold ret, capture_frame. rewrite <- Hk.
  destruct (sink e1 k); reflexivity.
Qed.

Lemma frame_loop_env_trace (e1 e2 : PlayEnv) (t : list Event) (n : nat) :
  (forall k, sink e1 k = sink e2 k) ->
  forall (k : nat) (p : Pipe) (w : World),
    length (buffered p) < n ->
    frame_loop e2 k p (with_trace t w) =
    (fst (frame_loop e1 k p w), with_trace t (snd (frame_loop e1 k p w))).
Proof.
  intros Hsink. induction n as [|n IH]; intros k p w Hn; [ lia | ].
  rewrite (frame_loop_eq e2), (frame_loop_eq e1).
  destruct (pipe_read bytes_per_frame p) as [[data|err] p'] eqn:Hread;
    [ | reflexivity ].
  destruct data as [|b data]; [ reflexivity | ].
  rewrite (loop_body_env_trace e1 e2 t k (b :: data) w (Hsink k)).
  pose proof (loop_body_session e1 k (b :: data) w) as (_ & Ht & _).
  destruct (loop_body e1 k (b :: data) w) as [[[]|err] w1]; cbn [fst snd] in *.
  - apply IH.
    assert (Hne : b :: data <> []) by discriminate.
    pose proof (pipe_read_shrinks _ _ _ Hread Hne). lia.
  - reflexivity.
Qed.

(** X8.  The probe for the duration decides nothing: whether ffprobe finds
    a duration or fails, [play_file] ends the same way, the streamer and the
    process table end up the same, and the traces differ in one log line
    only. *)
Theorem play_file_probe_irrelevant
        (e : PlayEnv) (r : option Z) (file_path : string) (w : World) :
  fst (play_file (with_probe r e) file_path w) = fst (play_file e file_path w) /\
  self (snd (play_file (with_probe r e) file_path w)) = self (snd (play_file e file_path w)) /\
  procs (snd (play_file (with_probe r e) file_path w)) = procs (snd (play_file e file_path w)) /\
  length (trace (snd (play_file (with_probe r e) file_path w)))
    = length (trace (snd (play_file e file_path w))) /\
  filter (fun ev => negb (match ev with
                          | Log _ (AudioDuration _) | Log _ NoDuration => true
                          | _ => false end))
         (trace (snd (play_file (with_probe r e) file_path w)))
  = filter (fun ev => negb (match ev with
                            | Log _ (AudioDuration _) | Log _ NoDuration => true
                            | _ => false end))
           (trace (snd (play_file e file_path w))).
Proof.
  destruct (is_connected (self w)) eqn:Hc.
  - destruct (ffmpeg_starts e) eqn:Hs.
    + rewrite (play_file_started (with_probe r e) file_path w Hc Hs).
      rewrite (play_file_started e file_path w Hc Hs).
      change (process_stdout (with_probe r e)) with (process_stdout e).
      change (started (with_probe r e) file_path w)
        with (with_trace (trace (started (with_probe r e) file_path w))
                         (started e file_path w)).
      rewrite (frame_loop_env_trace e (with_probe r e) _
                 (S (length (buffered (process_stdout e)))) (fun k => eq_refl)
                 0 (process_stdout e) (started e file_path w) ltac:(lia)).
      destruct (frame_loop_session e (S (length (buffered (process_stdout e)))) 0
                  (process_stdout e) (started e file_path w) ltac:(lia))
        as (_ & Ht & _).
      cbn [fst snd]. unfold finished, with_trace. cbn [self procs trace].
      rewrite Ht. unfold started. cbn [trace].
      repeat split.
      * rewrite !length_app. reflexivity.
      * rewrite !filter_app. unfold probe_log. cbn [probe_result with_probe].
        destruct r, (probe_result e); reflexivity.
    + rewrite (play_file_not_started (with_probe r e) file_path w Hc Hs).
      rewrite (play_file_not_started e file_path w Hc Hs). cbn [fst snd self procs trace].
      repeat split.
      * rewrite !length_app. reflexivity.
      * rewrite !filter_app. unfold probe_log. cbn [probe_result with_probe].
        destruct r, (probe_result e); reflexivity.
  - rewrite !play_file_not_connected by exact Hc. repeat split.
Qed.

(** ** Invariants of a session *)

Section SessionInvariants.

Lemma pipe_read_length (n : nat) (p p' : Pipe) (data : bytes) :
  pipe_read n p = (Ok data, p') -> length data <= n.
Proof.
  unfold pipe_read.
  destruct (Nat.leb_spec n (length (buffered p))) as [Hfull|Hshort].
  - intros H. pose proof (f_equal fst H) as Hd. cbn [fst] in Hd.
    injection Hd as <-. rewrite length_firstn. lia.
  - destruct (at_end p); intros H; [ | discriminate H ].
    pose proof (f_equal fst H) as Hd. cbn [fst] in Hd. injection Hd as <-. lia.
Qed.

Lemma frame_of_standard (data : bytes) :
  length data <= bytes_per_frame -> standard_frame (frame_of data).
Proof.
  intros Hle. unfold standard_frame, frame_of, pad_silence.
  cbn [frame_data sample_rate num_channels samples_per_channel].
  rewrite length_app, repeat_length. repeat split. lia.
Qed.

Lemma loop_body_standard (e : PlayEnv) (k : nat) (data : bytes) (w : World) :
  length data <= bytes_per_frame ->
  Forall standard_frame (audio_source (self w)) ->
  Forall standard_frame (audio_source (self (snd (loop_body e k data w)))).
Proof.
  intros Hle Hw. unfold loop_body, bind.
  destruct (Nat.even (length data)) eqn:Hev.
  - rewrite (make_frame_even data w Hev Hle). unfold capture_frame.
    destruct (sink e k); cbn [snd]; [ | exact Hw | exact Hw ].
    unfold modify_self, push_source. cbn [snd self audio_source].
    apply Forall_app. split; [ exact Hw | ].
    constructor; [ apply frame_of_standard, Hle | constructor ].
  - rewrite (make_frame_odd data w Hev). exact Hw.
Qed.

Lemma frame_loop_standard (e : PlayEnv) (n : nat) :
  forall (k : nat) (p : Pipe) (w : World),
    length (buffered p) < n ->
    Forall standard_frame (audio_source (self w)) ->
    Forall standard_frame (audio_source (self (snd (frame_loop e k p w)))).
Proof.
  induction n as [|n IH]; intros k p w Hn Hw; [ lia | ].
  destruct (pipe_read bytes_per_frame p) as [[data|err] p'] eqn:Hread.
  - destruct data as [|b data].
    + rewrite (frame_loop_break e k _ _ w Hread). exact Hw.
    + assert (Hne : b :: data <> []) by discriminate.
      rewrite (frame_loop_step e k _ _ w _ Hread Hne).
      pose proof (loop_body_standard e k (b :: data) w
                    (pipe_read_length _ _ _ _ Hread) Hw) as Hbody.
      destruct (loop_body e k (b :: data) w) as [[[]|err] w1]; cbn [snd] in *.
      * apply IH; [ | exact Hbody ].
        pose proof (pipe_read_shrinks _ _ _ Hread Hne). lia.
      * exact Hbody.
  - rewrite (frame_loop_read_error e k _ _ w _ Hread). exact Hw.
Qed.

Lemma play_file_standard (e : PlayEnv) (file_path : string) (w : World) :
  Forall standard_frame (audio_source (self w)) ->
  Forall standard_frame (audio_source (self (snd (play_file e file_path w)))).
Proof.
  intros Hw. destruct (is_connected (self w)) eqn:Hc.
  - destruct (ffmpeg_starts e) eqn:Hs.
    + rewrite (play_file_started e file_path w Hc Hs). cbn [snd].
      unfold finished. cbn [self].
      apply frame_loop_standard with (n := S (length (buffered (process_stdout e))));
        [ lia | exact Hw ].
    + rewrite (play_file_not_started e file_path w Hc Hs). exact Hw.
  - rewrite (play_file_not_connected e file_path w Hc). exact Hw.
Qed.

(** [connect] touches neither the audio source nor the process table, and
    spawns nothing. *)
Lemma connect_keeps_playback_state (ce : ConnEnv) (w : World) :
  audio_source (self (snd (connect ce w))) = audio_source (self w) /\
  procs (snd (connect ce w)) = procs w /\
  count is_spawn (trace (snd (connect ce w))) = count is_spawn (trace w).
Proof.
  unfold connect, bind, get_self. cbv zeta.
  destruct (forallb truthy _), (is_connected (self w)),
    (room_accepts ce) eqn:Hr, (publish_accepts ce) eqn:Hp;
    unfold room_connect, publish_track, bind, get_self, emit, modify_self,
      create_audio_track, log, emit; cbn; rewrite ?Hr; cbn; rewrite ?Hp; cbn;
    repeat split; unfold count; repeat rewrite filter_app;
    repeat rewrite length_app; cbn; lia.
Qed.

Lemma disconnect_keeps_playback_state (w : World) :
  audio_source (self (snd (disconnect w))) = audio_source (self w) /\
  procs (snd (disconnect w)) = procs w /\
  count is_spawn (trace (snd (disconnect w))) = count is_spawn (trace w).
Proof.
  split; [ | split; [ | apply disconnect_count; reflexivity ] ];
    destruct (is_connected (self w)) eqn:Hc;
    (rewrite (disconnect_connected w Hc) || rewrite (disconnect_not_connected w Hc));
    reflexivity.
Qed.

Lemma run_call_invariants (c : Call) (w : World) :
  (Forall standard_frame (audio_source (self w)) ->
   Forall standard_frame (audio_source (self (run_call c w)))) /\
  (forallb reaped (procs w) = true -> forallb reaped (procs (run_call c w)) = true) /\
  (length (procs w) = count is_spawn (trace w) ->
   length (procs (run_call c w)) = count is_spawn (trace (run_call c w))).
Proof.
  destruct c as [ce|pe f|]; cbn [run_call].
  - destruct (connect_keeps_playback_state ce w) as (Ha & Hp & Hs).
    rewrite Ha, Hp, Hs. auto.
  - destruct (play_file_process_table pe f w) as (Hp & Hs). rewrite Hp, Hs.
    split; [ apply play_file_standard | ]. split.
    + intros H. rewrite forallb_app, H.
      destruct (is_connected (self w) && ffmpeg_starts pe); reflexivity.
    + intros H. rewrite length_app, H.
      destruct (is_connected (self w) && ffmpeg_starts pe); reflexivity.
  - destruct (disconnect_keeps_playback_state w) as (Ha & Hp & Hs).
    rewrite Ha, Hp, Hs. auto.
Qed.

Lemma run_calls_invariants (calls : list Call) :
  forall w : World,
    Forall standard_frame (audio_source (self w)) ->
    forallb reaped (procs w) = true ->
    length (procs w) = count is_spawn (trace w) ->
    Forall standard_frame (audio_source (self (run_calls calls w))) /\
    forallb reaped (procs (run_calls calls w)) = true /\
    length (procs (run_calls calls w)) = count is_spawn (trace (run_calls calls w)).
Proof.
  induction calls as [|c calls IH]; intros w Ha Hp Hs.
  - cbn. auto.
  - unfold run_calls in *. cbn [fold_left].
    destruct (run_call_invariants c w) as (Ha' & Hp' & Hs').
    apply IH; auto.
Qed.

End SessionInvariants.

(** X9.  Whatever is called on a streamer, in whatever order and with
    whatever outcome, every frame its audio source has received is a full
    frame in the format of the source: 960 bytes of data, 24000 Hz, one
    channel, 480 samples. *)
Theorem audio_source_holds_standard_frames (name : string) (calls : list Call) :
  Forall standard_frame (audio_source (self (run_calls calls (new_world name)))) /\
  bytes_per_frame = 960 /\ frame_size = 480.
Proof.
  split; [ | split; reflexivity ].
  apply (run_calls_invariants calls (new_world name)); [ constructor | | ]; reflexivity.
Qed.

(** X10.  Whatever is called on a streamer, no decoder is left behind: every
    process the streamer has spawned has been waited for, and the process
    table holds one entry for each spawn. *)
Theorem session_leaves_no_process (name : string) (calls : list Call) :
  forallb reaped (procs (run_calls calls (new_world name))) = true /\
  length (procs (run_calls calls (new_world name)))
    = count is_spawn (trace (run_calls calls (new_world name))).
Proof.
  apply (run_calls_invariants calls (new_world name)); [ constructor | | ]; reflexivity.
Qed.

(** ** Whole runs of [main] *)

Section MainRuns.

Variable file : string.

(** The loop keeps the session and leaves no decoder behind. *)
Lemma main_loop_keeps (stdin : list (string * PlayEnv)) :
  forall w : World,
    same_session (self w) (self (snd (main_loop file stdin w))) /\
    (forallb reaped (procs w) = true ->
     forallb reaped (procs (snd (main_loop file stdin w))) = true).
Proof.
  induction stdin as [|[line e] rest IH]; intros w.
  - cbn. unfold same_session. tauto.
  - destruct (is_quit line) eqn:Hq.
    + rewrite (main_loop_quit file line e rest w Hq). cbn. unfold same_session. tauto.
    + rewrite (main_loop_play file line e rest w Hq).
      destruct (play_file_effect e file (snd (emit Prompt w))) as (Hsess & _).
      destruct (play_file_process_table e file (snd (emit Prompt w))) as (Hp & _).
      assert (Hreap : forallb reaped (procs w) = true ->
                      forallb reaped (procs (snd (play_file e file (snd (emit Prompt w)))))
                      = true).
      { intros H. rewrite Hp, forallb_app. cbn [emit snd procs]. rewrite H.
        destruct (_ && _); reflexivity. }
      destruct (play_file e file (snd (emit Prompt w))) as [[[]|err] w1];
        cbn [snd] in *.
      * destruct (IH w1) as (Hsess' & Hreap').
        split; [ | auto ].
        unfold same_session in *. cbn [emit snd self] in Hsess.
        intuition congruence.
      * split; [ exact Hsess | exact Hreap ].
Qed.

(** A stretch of lines that are not the quit token, each with a sound
    playback, takes the loop through that many playbacks to the line after
    the stretch. *)
Lemma main_loop_plays (plays : list (string * PlayEnv))
      (tail : list (string * PlayEnv)) :
  Forall (fun p => is_quit (fst p) = false /\ sound_playback (snd p)) plays ->
  forall w : World,
    is_connected (self w) = true ->
    exists w',
      main_loop file (plays ++ tail) w = main_loop file tail w' /\
      same_session (self w) (self w') /\
      audio_source (self w') = audio_source (self w) ++ frames_of_playbacks plays /\
      count is_playing (trace w') = count is_playing (trace w) + length plays /\
      count is_prompt (trace w') = count is_prompt (trace w) + length plays /\
      length (procs w') = length (procs w) + length plays /\
      (forall p, avoids local_event p -> count p (trace w') = count p (trace w)).
Proof.
  induction 1 as [|[line e] plays [Hq Hsound] Hplays IH]; intros w Hc.
  - exists w. cbn [app length frames_of_playbacks flat_map].
    rewrite app_nil_r, !Nat.add_0_r. unfold same_session. auto 10.
  - cbn [fst snd] in Hq, Hsound.
    cbn [app]. rewrite (main_loop_play file line e (plays ++ tail) w Hq).
    assert (Hc0 : is_connected (self (snd (emit Prompt w))) = true) by exact Hc.
    destruct (play_file_sound e file _ Hc0 Hsound) as (Hr & Ha & Hp & Hc1).
    destruct (play_file_logs_playing e file _ Hc0) as (t & Ht & Hplay & Hprompt).
    destruct (play_file_effect e file (snd (emit Prompt w))) as (Hsess & _).
    assert (Hcount : forall p, avoids local_event p ->
              count p (trace (snd (play_file e file (snd (emit Prompt w)))))
              = count p (trace w)).
    { intros p Hp'. rewrite play_file_count
        by (intros ev Hev; apply Hp', playback_is_local, Hev).
      cbn [emit snd trace]. rewrite count_app. unfold count at 2. cbn [filter].
      rewrite (Hp' Prompt eq_refl). cbn. lia. }
    destruct (play_file e file (snd (emit Prompt w))) as [[[]|err] w1];
      cbn [fst snd] in *; [ | discriminate Hr ].
    destruct (IH w1 Hc1) as (w' & Hloop & Hsess' & Ha' & Hn1 & Hn2 & Hn3 & Hcount').
    exists w'. split; [ exact Hloop | ].
    split; [ unfold same_session in *; cbn [emit snd self] in Hsess;
             intuition congruence | ].
    split; [ rewrite Ha', Ha; cbn [frames_of_playbacks flat_map snd];
             rewrite <- app_assoc; reflexivity | ].
    rewrite Hn1, Hn2, Hn3, Hp, Ht. cbn [emit snd trace procs length].
    rewrite !count_app, length_app. unfold count in *.
    cbn [filter is_playing is_prompt length] in *.
    rewrite Hplay, Hprompt.
    split; [ lia | ]. split; [ lia | ]. split; [ cbn; lia | ].
    intros p Hp'. rewrite (Hcount' p Hp'). apply Hcount. exact Hp'.
Qed.

End MainRuns.

(** [connect] on a new streamer when nothing stands in the way. *)
Lemma connect_new_world (ce : ConnEnv) (name : string) :
  credentials_ok ce = true -> room_accepts ce = true -> publish_accepts ce = true ->
  fst (connect ce (new_world name)) = Ok tt /\
  is_connected (self (snd (connect ce (new_world name)))) = true /\
  room_name (self (snd (connect ce (new_world name)))) = name /\
  audio_source (self (snd (connect ce (new_world name)))) = [] /\
  procs (snd (connect ce (new_world name))) = [] /\
  count is_playing (trace (snd (connect ce (new_world name)))) = 0 /\
  count is_prompt (trace (snd (connect ce (new_world name)))) = 0 /\
  count is_room_connect (trace (snd (connect ce (new_world name)))) = 1 /\
  count is_room_disconnect (trace (snd (connect ce (new_world name)))) = 0.
Proof.
  intros Hcred Hroom Hpub. unfold credentials_ok in Hcred.
  unfold connect, bind, get_self. cbv zeta.
  cbn [new_world self is_connected AudioStreamer_init fst]. rewrite Hcred. cbn [negb].
  unfold room_connect, publish_track, bind, get_self, emit, modify_self,
    create_audio_track, log, emit. cbn. rewrite Hroom. cbn. rewrite Hpub. cbn.
  repeat split.
Qed.

(** Room and session flags after [connect] on a session that was not
    connected. *)
Lemma connect_room_state (ce : ConnEnv) (w : World) :
  is_connected (self w) = false ->
  room_connected (self (snd (connect ce w))) =
    room_connected (self w) || credentials_ok ce && room_accepts ce /\
  count is_room_disconnect (trace (snd (connect ce w))) = count is_room_disconnect (trace w).
Proof.
  intros Hc. unfold connect, bind, get_self, credentials_ok. cbv zeta. rewrite Hc.
  destruct (forallb truthy _); cbn [negb].
  - unfold room_connect, publish_track, bind, get_self, emit, modify_self,
      create_audio_track, log, emit.
    destruct (room_accepts ce), (publish_accepts ce); cbn;
      rewrite ?orb_false_r, ?orb_true_r;
      repeat split; unfold count; repeat rewrite filter_app;
      repeat rewrite length_app; cbn; lia.
  - cbn. rewrite orb_false_r. split; reflexivity.
Qed.

(** X11.  A run of [main] that got as far as creating the streamer always
    cleans up, however the run ended (quit, a playback that raised, input
    that ran out, a connection or publication that failed): the session ends
    not connected with the room closed, the room was disconnected exactly
    once if it had been entered and not at all otherwise, and every decoder
    has been collected. *)
Theorem main_cleans_up (m : MainEnv) (wf : World) :
  snd (main m) = Some wf ->
  is_connected (self wf) = false /\
  room_connected (self wf) = false /\
  count is_room_disconnect (trace wf) =
    (if credentials_ok (conn m) && room_accepts (conn m) then 1 else 0) /\
  forallb reaped (procs wf) = true.
Proof.
  destruct (input_is_file m) eqn:Hf;
    [ | rewrite main_not_running by auto; discriminate ].
  destruct (room_input m) as [line|] eqn:Hr;
    [ | rewrite main_not_running by auto; discriminate ].
  destruct (String.eqb_spec (strip line) EmptyString) as [Heq|Hne];
    [ rewrite main_not_running by eauto; discriminate | ].
  rewrite (main_running m line Hf Hr Hne). cbn [snd]. intros H. injection H as <-.
  set (w0 := new_world (strip line)).
  assert (Hc0 : is_connected (self w0) = false) by reflexivity.
  destruct (connect_cases (conn m) w0 Hc0) as (_ & Hconn & _ & _ & Hprocs & _).
  destruct (connect_room_state (conn m) w0 Hc0) as (Hroom & Hdisc).
  change (room_connected (self w0)) with false in Hroom.
  change (count is_room_disconnect (trace w0)) with 0 in Hdisc.
  change (procs w0) with (@nil ProcState) in Hprocs.
  cbn [orb] in Hroom.
  set (w2 := snd ((connect (conn m);; main_loop (input_file m) (commands m)) w0)).
  assert (Hw2 : is_connected (self w2) = credentials_ok (conn m) && room_accepts (conn m) /\
                room_connected (self w2) = credentials_ok (conn m) && room_accepts (conn m) /\
                count is_room_disconnect (trace w2) = 0 /\
                forallb reaped (procs w2) = true).
  { unfold w2, bind.
    destruct (connect (conn m) w0) as [[[]|err] w1]; cbn [snd] in *.
    - destruct (main_loop_keeps (input_file m) (commands m) w1)
        as ((_ & Hrc & Hic & _) & Hreap).
      rewrite Hrc, Hic, Hconn, Hroom.
      rewrite main_loop_count
        by (intros ev Hev; destruct ev; (discriminate Hev || reflexivity)).
      repeat split; [ exact Hdisc | ].
      apply Hreap. rewrite Hprocs. reflexivity.
    - rewrite Hprocs. auto. }
  destruct Hw2 as (Hic & Hrc & Hn & Hreap).
  destruct (credentials_ok (conn m) && room_accepts (conn m)).
  - rewrite (disconnect_connected w2 Hic). cbn [snd self trace procs].
    repeat split; [ | exact Hreap ].
    rewrite !count_app, Hn. reflexivity.
  - rewrite (disconnect_not_connected w2 Hic). cbn [snd]. auto.
Qed.

Lemma main_cleans_up_witness :
  is_connected (self (final_world failing_run)) = false /\
  room_connected (self (final_world failing_run)) = false /\
  count is_room_disconnect (trace (final_world failing_run)) =
    (if credentials_ok (conn failing_run) && room_accepts (conn failing_run)
     then 1 else 0) /\
  forallb reaped (procs (final_world failing_run)) = true.
Proof.
  apply (main_cleans_up failing_run (final_world failing_run)).
  vm_compute. reflexivity.
Defined.

(** A run of [main] that connects and then goes through a stretch of sound
    playbacks: where the loop stands after them. *)
Lemma main_after_plays (m : MainEnv) (line : string)
      (plays tail : list (string * PlayEnv)) :
  input_is_file m = true ->
  room_input m = Some line ->
  strip line <> EmptyString ->
  credentials_ok (conn m) = true ->
  room_accepts (conn m) = true ->
  publish_accepts (conn m) = true ->
  commands m = plays ++ tail ->
  Forall (fun p => is_quit (fst p) = false /\ sound_playback (snd p)) plays ->
  exists w',
    main m = (fst (main_loop (input_file m) tail w'),
              Some (snd (disconnect (snd (main_loop (input_file m) tail w'))))) /\
    is_connected (self w') = true /\
    room_name (self w') = strip line /\
    audio_source (self w') = frames_of_playbacks plays /\
    count is_playing (trace w') = length plays /\
    count is_prompt (trace w') = length plays /\
    length (procs w') = length plays /\
    count is_room_connect (trace w') = 1 /\
    count is_room_disconnect (trace w') = 0.
Proof.
  intros Hf Hr Hne Hcred Hroom Hpub Hcmds Hplays.
  rewrite (main_running m line Hf Hr Hne).
  destruct (connect_new_world (conn m) (strip line) Hcred Hroom Hpub)
    as (Hok & Hc & Hname & Hsrc & Hprocs & Hn1 & Hn2 & Hn3 & Hn4).
  unfold bind.
  destruct (connect (conn m) (new_world (strip line))) as [[[]|err] w1];
    cbn [fst snd] in *; [ | discriminate Hok ].
  rewrite Hcmds.
  destruct (main_loop_plays (input_file m) plays tail Hplays w1 Hc)
    as (w' & Hloop & (Hrn & _ & Hic & _) & Ha & Hp1 & Hp2 & Hp3 & Hcount).
  exists w'. rewrite Hloop. split; [ reflexivity | ].
  rewrite Hic, Hrn, Ha, Hp1, Hp2, Hp3, Hsrc, Hprocs, Hn1, Hn2.
  rewrite !Hcount by (intros ev Hev; destruct ev; (discriminate Hev || reflexivity)).
  cbn [app length Nat.add]. auto 10.
Qed.

(** X12.  A run of [main] with the input file in place, a room name that is
    not blank and a room that accepts connection and publication, where every
    line before the first quit token starts a sound playback: [main] returns
    normally (exit status 0); the audio source has received the frames of
    these playbacks, in the order of the lines; there was one prompt per
    playback and one for the quit line, one decoder per playback, one
    connection and one disconnection; lines after the quit token were never
    read. *)
Theorem main_plays_then_quits
        (m : MainEnv) (line q : string) (qe : PlayEnv)
        (plays rest : list (string * PlayEnv)) :
  input_is_file m = true ->
  room_input m = Some line ->
  strip line <> EmptyString ->
  credentials_ok (conn m) = true ->
  room_accepts (conn m) = true ->
  publish_accepts (conn m) = true ->
  commands m = plays ++ (q, qe) :: rest ->
  Forall (fun p => is_quit (fst p) = false /\ sound_playback (snd p)) plays ->
  is_quit q = true ->
  fst (main m) = Ok tt /\
  exit_status (fst (main m)) = 0%Z /\
  exists wf,
    snd (main m) = Some wf /\
    room_name (self wf) = strip line /\
    audio_source (self wf) = frames_of_playbacks plays /\
    count is_playing (trace wf) = length plays /\
    count is_prompt (trace wf) = S (length plays) /\
    length (procs wf) = length plays /\
    count is_room_connect (trace wf) = 1 /\
    count is_room_disconnect (trace wf) = 1 /\
    is_connected (self wf) = false.
Proof.
  intros Hf Hr Hne Hcred Hroom Hpub Hcmds Hplays Hq.
  destruct (main_after_plays m line plays ((q, qe) :: rest)
              Hf Hr Hne Hcred Hroom Hpub Hcmds Hplays)
    as (w' & Hmain & Hc & Hname & Hsrc & Hn1 & Hn2 & Hn3 & Hn4 & Hn5).
  rewrite Hmain, (main_loop_quit (input_file m) q qe rest w' Hq). cbn [fst snd].
  split; [ reflexivity | ]. split; [ reflexivity | ].
  eexists. split; [ reflexivity | ].
  assert (Hc' : is_connected (self (snd (emit Prompt w'))) = true) by exact Hc.
  rewrite (disconnect_connected _ Hc'). cbn [snd self trace procs emit].
  unfold set_is_connected, set_room_connected.
  cbn [room_name audio_source is_connected].
  rewrite !count_app, Hn1, Hn2, Hn4, Hn5. cbn.
  repeat split; try assumption; lia.
Qed.

Lemma main_plays_then_quits_witness :
  fst (main quitting_run) = Ok tt /\
  exit_status (fst (main quitting_run)) = 0%Z /\
  exists wf,
    snd (main quitting_run) = Some wf /\
    room_name (self wf) = strip " demo " /\
    audio_source (self wf) =
      frames_of_playbacks [(EmptyString, decoder (pcm 1400) 0);
                           ("again"%string, decoder (pcm 960) 0)] /\
    count is_playing (trace wf) = 2 /\
    count is_prompt (trace wf) = 3 /\
    length (procs wf) = 2 /\
    count is_room_connect (trace wf) = 1 /\
    count is_room_disconnect (trace wf) = 1 /\
    is_connected (self wf) = false.
Proof.
  apply (main_plays_then_quits quitting_run " demo " "Q" (decoder (pcm 960) 0)
           [(EmptyString, decoder (pcm 1400) 0); ("again"%string, decoder (pcm 960) 0)]
           [(EmptyString, decoder (pcm 960) 0)]).
  - reflexivity.
  - reflexivity.
  - vm_compute. discriminate.
  - reflexivity.
  - reflexivity.
  - reflexivity.
  - reflexivity.
  - repeat constructor.
  - reflexivity.
Defined.

(** X13.  When the input runs out before a quit token -- every line so far
    having started a sound playback -- the next [input] raises [EOFError]:
    [main] ends with that error and a non-zero exit status, after all the
    playbacks were delivered and the session was disconnected. *)
Theorem main_input_runs_out (m : MainEnv) (line : string) :
  input_is_file m = true ->
  room_input m = Some line ->
  strip line <> EmptyString ->
  credentials_ok (conn m) = true ->
  room_accepts (conn m) = true ->
  publish_accepts (conn m) = true ->
  Forall (fun p => is_quit (fst p) = false /\ sound_playback (snd p)) (commands m) ->
  fst (main m) = Raise EndOfInput /\
  exit_status (fst (main m)) <> 0%Z /\
  exists wf,
    snd (main m) = Some wf /\
    audio_source (self wf) = frames_of_playbacks (commands m) /\
    count is_playing (trace wf) = length (commands m) /\
    count is_prompt (trace wf) = S (length (commands m)) /\
    count is_room_disconnect (trace wf) = 1 /\
    is_connected (self wf) = false.
Proof.
  intros Hf Hr Hne Hcred Hroom Hpub Hplays.
  destruct (main_after_plays m line (commands m) []
              Hf Hr Hne Hcred Hroom Hpub (eq_sym (app_nil_r _)) Hplays)
    as (w' & Hmain & Hc & Hname & Hsrc & Hn1 & Hn2 & Hn3 & Hn4 & Hn5).
  rewrite Hmain. cbn [main_loop]. unfold bind, raise. cbn [emit fst snd].
  split; [ reflexivity | ]. split; [ cbn; lia | ].
  eexists. split; [ reflexivity | ].
  match goal with |- context [disconnect ?w] =>
    assert (Hc' : is_connected (self w) = true) by exact Hc;
    rewrite (disconnect_connected w Hc') end.
  cbn [snd self trace procs].
  unfold set_is_connected, set_room_connected. cbn [audio_source is_connected].
  rewrite !count_app, Hn1, Hn2, Hn5. cbn.
  repeat split; try assumption; lia.
Qed.

Lemma main_input_runs_out_witness :
  fst (main unattended_run) = Raise EndOfInput /\
  exit_status (fst (main unattended_run)) <> 0%Z /\
  exists wf,
    snd (main unattended_run) = Some wf /\
    audio_source (self wf) = frames_of_playbacks (commands unattended_run) /\
    count is_playing (trace wf) = length (commands unattended_run) /\
    count is_prompt (trace wf) = S (length (commands unattended_run)) /\
    count is_room_disconnect (trace wf) = 1 /\
    is_connected (self wf) = false.
Proof.
  apply (main_input_runs_out unattended_run "demo").
  - reflexivity.
  - reflexivity.
  - vm_compute. discriminate.
  - reflexivity.
  - reflexivity.
  - reflexivity.
  - repeat constructor.
Defined.

(** ** The quit token *)

Section QuitToken.

Lemma lower_char_q (c : ascii) :
  lower_char c = "q"%char -> c = "q"%char \/ c = "Q"%char.
Proof.
  destruct c as [[] [] [] [] [] [] [] []]; vm_compute; intros H;
    solve [ discriminate H | left; reflexivity | right; reflexivity ].
Qed.

Lemma lower_is_q (s : string) :
  lower s = "q"%string -> s = "q"%string \/ s = "Q"%string.
Proof.
  destruct s as [|c s']; cbn [lower]; intros H; [ discriminate H | ].
  injection H as Hc Hs. destruct s' as [|c' s'']; [ | discriminate Hs ].
  destruct (lower_char_q c Hc) as [-> | ->]; auto.
Qed.

Lemma lstrip_decomp (s : string) :
  exists pre, s = (pre ++ lstrip s)%string /\ all_space pre = true.
Proof.
  induction s as [|c r (pre & Hr & Hpre)].
  - exists EmptyString. split; reflexivity.
  - cbn [lstrip]. destruct (isspace c) eqn:Hc.
    + exists (String c pre). cbn [String.append all_space].
      rewrite <- Hr, Hc, Hpre. split; reflexivity.
    + exists EmptyString. split; reflexivity.
Qed.

Lemma lstrip_spaces (pre s : string) :
  all_space pre = true -> lstrip (pre ++ s)%string = lstrip s.
Proof.
  induction pre as [|c pre IH]; intros H; [ reflexivity | ].
  cbn [all_space] in H. apply andb_prop in H as [Hc Hpre].
  cbn [String.append lstrip]. rewrite Hc. apply IH, Hpre.
Qed.

Lemma rstrip_empty (s : string) :
  rstrip s = EmptyString <-> all_space s = true.
Proof.
  induction s as [|c r IH]; [ split; reflexivity | ].
  cbn [rstrip all_space]. destruct (rstrip r) as [|c' r'] eqn:Hr.
  - destruct (isspace c); cbn [andb].
    + split; intros _; [ apply IH; reflexivity | reflexivity ].
    + split; discriminate.
  - split; [ discriminate | ].
    intros H. apply andb_prop in H as [_ H]. apply IH in H. discriminate H.
Qed.

Lemma rstrip_single (s : string) (c : ascii) :
  rstrip s = String c EmptyString ->
  exists post, s = String c post /\ all_space post = true /\ isspace c = false.
Proof.
  destruct s as [|c0 r]; cbn [rstrip]; [ discriminate | ].
  destruct (rstrip r) as [|c' r'] eqn:Hr.
  - destruct (isspace c0) eqn:Hc0; [ discriminate | ].
    intros H. injection H as <-.
    exists r. split; [ reflexivity | ]. split; [ apply rstrip_empty, Hr | exact Hc0 ].
  - intros H. discriminate H.
Qed.

Lemma rstrip_spaces_after (c : ascii) (post : string) :
  isspace c = false -> all_space post = true ->
  rstrip (String c post) = String c EmptyString.
Proof.
  intros Hc Hpost. cbn [rstrip]. apply rstrip_empty in Hpost.
  rewrite Hpost, Hc. reflexivity.
Qed.

End QuitToken.

(** X14.  A line quits the loop exactly when it consists of one letter [q]
    or [Q] with nothing but whitespace before and after it.  So neither the
    empty line nor [quit] nor [q q] quits. *)
Theorem is_quit_iff (line : string) :
  is_quit line = true <->
  exists (pre post : string) (c : ascii),
    line = (pre ++ String c post)%string /\
    all_space pre = true /\ all_space post = true /\
    (c = "q"%char \/ c = "Q"%char).
Proof.
  rewrite is_quit_spec. split.
  - intros H. apply lower_is_q in H. unfold strip in H.
    destruct (lstrip_decomp line) as (pre & Hline & Hpre).
    assert (Hc : exists c, rstrip (lstrip line) = String c EmptyString /\
                           (c = "q"%char \/ c = "Q"%char)).
    { destruct H as [H | H]; rewrite H; eexists; split; eauto. }
    destruct Hc as (c & Hstrip & Hc).
    destruct (rstrip_single _ _ Hstrip) as (post & Hl & Hpost & _).
    exists pre, post, c. rewrite <- Hl. auto.
  - intros (pre & post & c & -> & Hpre & Hpost & Hc).
    assert (Hns : isspace c = false) by (destruct Hc as [-> | ->]; reflexivity).
    unfold strip. rewrite (lstrip_spaces pre _ Hpre). cbn [lstrip]. rewrite Hns.
    rewrite (rstrip_spaces_after c post Hns Hpost).
    destruct Hc as [-> | ->]; reflexivity.
Qed.

Lemma is_quit_iff_witness :
  is_quit " Q " = true <->
  exists (pre post : string) (c : ascii),
    " Q "%string = (pre ++ String c post)%string /\
    all_space pre = true /\ all_space post = true /\
    (c = "q"%char \/ c = "Q"%char).
Proof. exact (is_quit_iff " Q "). Defined.

(** ** Runs of [main] that fail to connect, and the end of a session *)

Lemma connect_no_prompt (ce : ConnEnv) (w : World) :
  count is_prompt (trace (snd (connect ce w))) = count is_prompt (trace w) /\
  count is_playing (trace (snd (connect ce w))) = count is_playing (trace w).
Proof.
  unfold connect, bind, get_self. cbv zeta.
  destruct (forallb truthy _), (is_connected (self w)),
    (room_accepts ce) eqn:Hr, (publish_accepts ce) eqn:Hp;
    unfold room_connect, publish_track, bind, get_self, emit, modify_self,
      create_audio_track, log, emit; cbn; rewrite ?Hr; cbn; rewrite ?Hp; cbn;
    repeat split; unfold count; repeat rewrite filter_app;
    repeat rewrite length_app; cbn; lia.
Qed.

(** X15.  When [connect] fails in [main] -- credentials missing, connection
    refused or publication refused -- the control loop never starts: there is
    no prompt, no playback and no decoder, [main] ends with the error of
    [connect] and a non-zero exit status, and the session is left not
    connected. *)
Theorem main_connect_failure (m : MainEnv) (line : string) :
  input_is_file m = true ->
  room_input m = Some line ->
  strip line <> EmptyString ->
  credentials_ok (conn m) && room_accepts (conn m) && publish_accepts (conn m) = false ->
  fst (main m) =
    Raise (if negb (credentials_ok (conn m)) then MissingCredentials
           else if negb (room_accepts (conn m)) then ConnectFailed
           else PublishFailed) /\
  exit_status (fst (main m)) <> 0%Z /\
  exists wf,
    snd (main m) = Some wf /\
    count is_prompt (trace wf) = 0 /\
    count is_playing (trace wf) = 0 /\
    procs wf = [] /\
    audio_source (self wf) = [] /\
    is_connected (self wf) = false.
Proof.
  intros Hf Hr Hne Hfail.
  rewrite (main_running m line Hf Hr Hne).
  set (w0 := new_world (strip line)).
  destruct (connect_cases (conn m) w0 eq_refl) as (Hfst & _).
  destruct (connect_no_prompt (conn m) w0) as (Hn1 & Hn2).
  destruct (connect_keeps_playback_state (conn m) w0) as (Ha & Hp & _).
  unfold bind.
  destruct (connect (conn m) w0) as [[[]|err] w1]; cbn [fst snd] in *.
  - exfalso.
    destruct (credentials_ok (conn m)), (room_accepts (conn m)),
      (publish_accepts (conn m)); cbn in Hfst, Hfail; discriminate.
  - assert (Herr : err = (if negb (credentials_ok (conn m)) then MissingCredentials
                          else if negb (room_accepts (conn m)) then ConnectFailed
                          else PublishFailed)).
    { destruct (credentials_ok (conn m)), (room_accepts (conn m)),
        (publish_accepts (conn m)); cbn in Hfst, Hfail |- *;
        congruence. }
    rewrite <- Herr. split; [ reflexivity | ]. split; [ cbn; lia | ].
    eexists. split; [ reflexivity | ].
    destruct (disconnect_keeps_playback_state w1) as (Ha' & Hp' & _).
    assert (Hplay : count is_playing (trace (snd (disconnect w1)))
                    = count is_playing (trace w1)).
    { destruct (is_connected (self w1)) eqn:Hc1.
      - rewrite (disconnect_connected w1 Hc1). cbn [snd trace].
        rewrite !count_app. cbn. lia.
      - rewrite (disconnect_not_connected w1 Hc1). reflexivity. }
    rewrite disconnect_count by reflexivity.
    rewrite Hplay, Ha', Hp', Ha, Hp, Hn1, Hn2, disconnect_is_off. repeat split.
Qed.

Lemma main_connect_failure_witness :
  let m := mkMainEnv "a.mp3" true (Some "demo"%string) conn_no_publish
                     [(EmptyString, decoder (pcm 960) 0)] in
  fst (main m) =
    Raise (if negb (credentials_ok (conn m)) then MissingCredentials
           else if negb (room_accepts (conn m)) then ConnectFailed
           else PublishFailed) /\
  exit_status (fst (main m)) <> 0%Z /\
  exists wf,
    snd (main m) = Some wf /\
    count is_prompt (trace wf) = 0 /\
    count is_playing (trace wf) = 0 /\
    procs wf = [] /\
    audio_source (self wf) = [] /\
    is_connected (self wf) = false.
Proof.
  cbv zeta.
  apply (main_connect_failure
           (mkMainEnv "a.mp3" true (Some "demo"%string) conn_no_publish
                      [(EmptyString, decoder (pcm 960) 0)]) "demo").
  - reflexivity.
  - reflexivity.
  - vm_compute. discriminate.
  - reflexivity.
Defined.

(** X16.  [disconnect] ends the session for [play_file] too: after a
    [disconnect], from whatever state, [play_file] raises the not-connected
    error and leaves the world as [disconnect] left it -- no decoder, no
    frame, no line of log. *)
Theorem play_file_after_disconnect (e : PlayEnv) (file_path : string) (w : World) :
  play_file e file_path (snd (disconnect w)) = (Raise NotConnected, snd (disconnect w)).
Proof.
  apply play_file_not_connected, disconnect_is_off.
Qed.
